(** * ONNX [Loop] importer: lowering to the nGraph [Loop] construct

    A shallow embedding of
    [ngraph/frontend/onnx_import/src/op/loop.cpp] (namespace
    [ngraph::onnx_import::op::set_1]) and the properties of the lowering
    that its specification states.

    The C++ function [loop] reads the inputs of an ONNX [Loop] node and its
    [body] sub-graph, resolves the two optional inputs, and either returns
    early (constant-false condition) or builds an nGraph [Loop] node.  It
    throws, logs a warning, and mutates the freshly created [Loop] node; the
    embedding keeps these effects: computations live in a monad with
    exceptions and a trace, and the [Loop] node is threaded explicitly. *)

From Stdlib Require Import ZArith String.
From stdpp Require Import base list.

Set Default Proof Using "Type".

(** ** Data model *)

(** [ngraph::element::Type]: the element types this file names, and a few
    others a constant or a parameter can have. *)
Inductive element_type : Type :=
| boolean
| i32
| i64
| f32
| dynamic.

Definition element_type_eqb (a b : element_type) : bool :=
  match a, b with
  | boolean, boolean | i32, i32 | i64, i64 | f32, f32 | dynamic, dynamic => true
  | _, _ => false
  end.

(** [ngraph::Shape]: a vector of extents. *)
Abbreviation Shape := (list nat).

(** [ngraph::PartialShape]: [None] is a dynamic rank; with a static rank
    every dimension is static ([Some n]) or dynamic ([None]). *)
Definition PartialShape : Type := option (list (option nat)).

(** [ngraph::op::Parameter], as held by a [ParameterVector]. *)
Record ParameterNode : Type := mkParameter {
  parameter_name : string;
  parameter_type : element_type;
  parameter_shape : PartialShape
}.

(** [Output<ngraph::Node>].  Only the node kinds that [loop.cpp] tells apart
    have a constructor of their own; every other operation is an [Op].  A
    node stores the shape inferred when it was built, as nGraph nodes do;
    a [Constant] stores its static shape and its elements (as integers, a
    boolean constant holding 0 and 1).  [LoopOutput i] is the [i]-th
    output of the [Loop] node built by this lowering. *)
Inductive Output : Type :=
| NullNode
| Constant (et : element_type) (shape : Shape) (values : list Z)
| Param (p : ParameterNode)
| LogicalOr (ps : PartialShape) (arg0 arg1 : Output)
| Unsqueeze (ps : PartialShape) (data axes : Output)
| Op (name : string) (et : element_type) (ps : PartialShape)
| LoopOutput (index : nat).

Abbreviation OutputVector := (list Output).
Abbreviation ParameterVector := (list ParameterNode).

(** [onnx_import::Subgraph]: the body graph attribute. *)
Record Subgraph : Type := mkSubgraph {
  ng_outputs : OutputVector;
  ng_parameters : ParameterVector
}.

(** [onnx_import::Node]: the ONNX [Loop] node being lowered. *)
Record Node : Type := mkNode {
  ng_inputs : OutputVector;
  body_attribute : Subgraph
}.

(** [ngraph::Function]: results paired with parameters. *)
Record Function : Type := mkFunction {
  results : OutputVector;
  parameters : ParameterVector
}.

(** [ngraph::opset5::Loop::SpecialBodyPorts]. *)
Record SpecialBodyPorts : Type := mkSpecialBodyPorts {
  current_iteration_input_idx : Z;
  body_condition_output_idx : Z
}.

(** What [set_merged_input] records on the [Loop] node. *)
Record MergedInputDescription : Type := mkMergedInput {
  body_parameter : ParameterNode;
  initial_value : Output;
  successive_value : Output
}.

(** What [get_iter_value] and [get_concatenated_slices] record. *)
Inductive OutputDescription : Type :=
| BodyOutputDescription (body_value : Output) (iteration : Z)
| ConcatOutputDescription
    (body_value : Output) (start stride part_size end_ axis : Z).

(** [ngraph::opset5::Loop] (named [LoopOp], the lowering itself being
    [loop]). *)
Record LoopOp : Type := mkLoop {
  trip_count : Output;
  execution_condition : Output;
  special_body_ports : option SpecialBodyPorts;
  body : option Function;
  input_descriptions : list MergedInputDescription;
  output_descriptions : list OutputDescription
}.

(** ** Effects: exceptions and a trace *)

(** Which of the two [CHECK_VALID_NODE] conditions failed. *)
Inductive BodyList : Type :=
| body_graph_inputs
| body_graph_outputs.

(** The ways the C++ function leaves abnormally.  [operator[]] and an
    iterator moved past the end have no defined behaviour; the embedding
    makes them an outcome of their own so that no theorem silently assumes
    them away. *)
Inductive Exception : Type :=
| std_out_of_range
| node_validation_failure (which : BodyList) (actual required : nat)
| undefined_behaviour.

(** The calls on the body sub-graph, the checks and the diagnostics, in the
    order in which they happen. *)
Inductive Event : Type :=
| GetBodyAttribute
| GetNgOutputs
| GetNgParameters
| CheckValidNode (which : BodyList) (holds : bool)
| Warn (message : string).

Abbreviation Trace := (list Event).

Inductive Outcome (A : Type) : Type :=
| Returned (a : A)
| Thrown (e : Exception).
Arguments Returned {A} a.
Arguments Thrown {A} e.

Definition Comp (A : Type) : Type := Trace -> Outcome A * Trace.

Definition ret {A} (a : A) : Comp A := fun t => (Returned a, t).

Definition bind {A B} (c : Comp A) (k : A -> Comp B) : Comp B :=
  fun t =>
    match c t with
    | (Returned a, t') => k a t'
    | (Thrown e, t') => (Thrown e, t')
    end.

Definition throw {A} (e : Exception) : Comp A := fun t => (Thrown e, t).

Definition emit (ev : Event) : Comp unit := fun t => (Returned tt, t ++ [ev]).

#[export] Instance Comp_ret : MRet Comp := @ret.
#[export] Instance Comp_bind : MBind Comp := fun A B k c => bind c k.

(** ** Vectors *)

(** [v.at(i)]: bounds-checked. *)
Definition at_ {A} (v : list A) (i : nat) : Comp A :=
  match v !! i with
  | Some x => ret x
  | None => throw std_out_of_range
  end.

(** [v[i]]: unchecked. *)
Definition subscript {A} (v : list A) (i : nat) : Comp A :=
  match v !! i with
  | Some x => ret x
  | None => throw undefined_behaviour
  end.

(** The range [std::next(v.begin(), n), v.end()), copied into a vector. *)
Definition range_from {A} (n : nat) (v : list A) : Comp (list A) :=
  if decide (n <= length v) then ret (drop n v) else throw undefined_behaviour.

(** A range-based [for] that pushes every element of [src] onto [dst]. *)
Definition push_back_all {A} (src dst : list A) : list A :=
  fold_left (fun acc x => acc ++ [x]) src dst.

(** ** Node queries

    The queries that [loop.cpp] calls on a node are declared in nGraph's
    headers, outside this file's source. *)

(** Modelled from the spec: [ngraph::op::is_null], true of "the null
    sentinel" that marks an omitted optional input. *)
Definition is_null (o : Output) : bool :=
  match o with NullNode => true | _ => false end.

(** Modelled from the spec: [ngraph::op::is_constant], true of "a
    compile-time constant". *)
Definition is_constant (o : Output) : bool :=
  match o with Constant _ _ _ => true | _ => false end.

(** Modelled from the spec: [Node::get_element_type]; line 65 asks it of a
    constant only, to tell "a compile-time boolean constant". *)
Definition get_element_type (o : Output) : element_type :=
  match o with
  | Constant et _ _ => et
  | Param p => parameter_type p
  | LogicalOr _ _ _ => boolean
  | Op _ et _ => et
  | NullNode | Unsqueeze _ _ _ | LoopOutput _ => dynamic
  end.

(** Modelled from the spec: [Output::get_partial_shape], the shape that is
    or is not "statically known". *)
Definition get_partial_shape (o : Output) : PartialShape :=
  match o with
  | Constant _ shape _ => Some (map Some shape)
  | Param p => parameter_shape p
  | LogicalOr ps _ _ | Unsqueeze ps _ _ | Op _ _ ps => ps
  | NullNode | LoopOutput _ => None
  end.

(** Modelled from the spec: [Constant::cast_vector<bool>], the "value" of
    a compile-time constant: every element converted to [bool], non-zero
    being [true]. *)
Definition cast_vector_bool (o : Output) : list bool :=
  match o with
  | Constant _ _ values => map (fun z => negb (z =? 0)%Z) values
  | _ => []
  end.

(** Modelled from the spec: [PartialShape::is_static], "statically known":
    the rank and every dimension are. *)
Definition is_static (ps : PartialShape) : bool :=
  match ps with
  | Some dims => forallb (fun d => match d with Some _ => true | None => false end) dims
  | None => false
  end.

(** Modelled from the spec: [PartialShape::to_shape], the static shape of
    a statically known partial shape. *)
Definition to_shape (ps : PartialShape) : Shape :=
  match ps with
  | Some dims => map (default 0) dims
  | None => []
  end.

(** Modelled from the spec: [ngraph::is_scalar], "rank-0 (scalar)". *)
Definition is_scalar (shape : Shape) : bool :=
  match shape with [] => true | _ :: _ => false end.

(** ** Node construction *)

(** Modelled from the spec: [ngraph::op::Constant::create(type, shape,
    values)], which "synthesizes" a constant. *)
Definition Constant_create (et : element_type) (shape : Shape) (values : list Z) : Output :=
  Constant et shape values.

(** Modelled from the spec: the shape inference of
    [default_opset::Unsqueeze] is not in this file's source.  The
    specification describes the node built at line 152 as "a rank-1 view
    obtained by inserting a new leading axis at position 0": with the axes
    constant [{0}] a static-rank input gains a leading dimension 1; for any
    other axes the model infers nothing. *)
Definition infer_unsqueeze (ps : PartialShape) (axes : Output) : PartialShape :=
  match ps, axes with
  | Some dims, Constant _ _ [0%Z] => Some (Some 1 :: dims)
  | _, _ => None
  end.

(** Modelled from the spec: [std::make_shared<default_opset::Unsqueeze>(data,
    axes)]; the node infers its shape when it is built. *)
Definition make_Unsqueeze (data axes : Output) : Output :=
  Unsqueeze (infer_unsqueeze (get_partial_shape data) axes) data axes.

(** Modelled from the spec: the methods of [ngraph::opset5::Loop] called by
    the lowering are not in this file's source.  The specification has the
    loop construct expose a trip count, a termination condition, the special
    body ports, "one merged input/output binding per carried dependency, and
    one concatenated-slice output per scan output"; each method records its
    arguments on the node, and the two that create an output return the next
    output of the node. *)
Definition make_Loop (trip_count execution_condition : Output) : LoopOp :=
  mkLoop trip_count execution_condition None None [] [].

(** Modelled from the spec: [Loop::set_special_body_ports], the "special
    ports" binding. *)
Definition set_special_body_ports (l : LoopOp) (ports : SpecialBodyPorts) : LoopOp :=
  mkLoop (trip_count l) (execution_condition l) (Some ports) (body l)
         (input_descriptions l) (output_descriptions l).

(** Modelled from the spec: [Loop::set_function], which attaches "the
    executable body function". *)
Definition set_function (l : LoopOp) (f : Function) : LoopOp :=
  mkLoop (trip_count l) (execution_condition l) (special_body_ports l) (Some f)
         (input_descriptions l) (output_descriptions l).

(** Modelled from the spec: [Loop::set_merged_input], a "merged" input:
    "initial value on entry", then the body's corresponding output. *)
Definition set_merged_input
    (l : LoopOp) (body_parameter : ParameterNode) (initial_value successive_value : Output)
    : LoopOp :=
  mkLoop (trip_count l) (execution_condition l) (special_body_ports l) (body l)
         (input_descriptions l ++ [mkMergedInput body_parameter initial_value successive_value])
         (output_descriptions l).

(** Modelled from the spec: a new output of the loop node, described by
    [d]; outputs are numbered in the order of their creation. *)
Definition add_output (l : LoopOp) (d : OutputDescription) : LoopOp * Output :=
  (mkLoop (trip_count l) (execution_condition l) (special_body_ports l) (body l)
          (input_descriptions l) (output_descriptions l ++ [d]),
   LoopOutput (length (output_descriptions l))).

(** Modelled from the spec: [Loop::get_iter_value], the value of a body
    output after a given iteration, -1 meaning "most recent". *)
Definition get_iter_value (l : LoopOp) (body_value : Output) (iteration : Z)
    : LoopOp * Output :=
  add_output l (BodyOutputDescription body_value iteration).

(** Modelled from the spec: [Loop::get_concatenated_slices], a
    "concatenated slices" output. *)
Definition get_concatenated_slices
    (l : LoopOp) (body_value : Output) (start stride part_size end_ axis : Z)
    : LoopOp * Output :=
  add_output l (ConcatOutputDescription body_value start stride part_size end_ axis).

(** Modelled from the spec: the macro [CHECK_VALID_NODE] is not in this
    file's source.  The specification has it fail "with a
    StructuralValidationError (carrying the offending counts)" when its
    condition is false; both uses compare a size with a required minimum. *)
Definition CHECK_VALID_NODE (which : BodyList) (actual required : nat) : Comp unit :=
  let holds := bool_decide (required <= actual) in
  emit (CheckValidNode which holds);;
  if holds then mret tt else throw (node_validation_failure which actual required).

(** Modelled from the spec: [Node::get_attribute_value<Subgraph>("body")]
    of line 84, which hands over the "one attached Body". *)
Definition get_attribute_value_body (node : Node) : Comp Subgraph :=
  emit GetBodyAttribute;; mret (body_attribute node).

(** Modelled from the spec: [Subgraph::get_ng_outputs] of line 85, the
    body's "ordered outputs". *)
Definition get_ng_outputs (g : Subgraph) : Comp OutputVector :=
  emit GetNgOutputs;; mret (ng_outputs g).

(** Modelled from the spec: [Subgraph::get_ng_parameters] of line 86, the
    body's "ordered parameters". *)
Definition get_ng_parameters (g : Subgraph) : Comp ParameterVector :=
  emit GetNgParameters;; mret (ng_parameters g).

(** ** The lowering *)

(** Lines 52 to 74. *)
Definition is_termination_condition_always_true (body_out_cond : Output) : Comp bool :=
  match body_out_cond with
  | LogicalOr _ _ second_input =>
      if is_constant second_input
         && element_type_eqb (get_element_type second_input) boolean
      then
        first ← at_ (cast_vector_bool second_input) 0;
        if negb first then mret true else mret false
      else mret false
  | _ => mret false
  end.

(** Lines 89 to 98: the trip count. *)
Definition resolve_trip_count (input0 : Output) : Output :=
  if is_null input0
  then Constant_create i64 [1] [(-1)%Z]
  else input0.

(** Lines 100 to 140: the termination condition, or the early return. *)
Inductive Resolution : Type :=
| Continue (termination_cond : Output)
| ReturnEarly (node_outputs : OutputVector).

Definition resolve_termination_cond
    (input1 : Output) (loop_carried_dependencies : OutputVector) : Comp Resolution :=
  if is_null input1 then
    mret (Continue (Constant_create boolean [1] [1%Z]))
  else if is_constant input1 then
    first ← subscript (cast_vector_bool input1) 0;
    if first : bool then
      mret (Continue (Constant_create boolean [1] [1%Z]))
    else
      let node_outputs := push_back_all loop_carried_dependencies [] in
      let node_outputs := push_back_all loop_carried_dependencies node_outputs in
      mret (ReturnEarly node_outputs)
  else
    mret (Continue (Constant_create boolean [1] [1%Z])).

(** Lines 142 to 155: scalar handling for scan outputs.  The loop runs [i]
    from [k + 1] while [i < body_outputs.size()]; assigning an element does
    not change the size, so the indices visited are fixed at entry.  The
    counter is an [int] in the source and a natural number here: vector
    sizes are taken to fit. *)
Definition unsqueeze_if_scalar
    (concat_axis_const : Output) (body_outputs : OutputVector) (i : nat) : OutputVector :=
  match body_outputs !! i with
  | Some o =>
      let body_output_shape := get_partial_shape o in
      if is_static body_output_shape && is_scalar (to_shape body_output_shape)
      then <[i := make_Unsqueeze o concat_axis_const]> body_outputs
      else body_outputs
  | None => body_outputs
  end.

Definition scalar_handling (k : nat) (body_outputs : OutputVector) : OutputVector :=
  let concat_axis := 0%Z in
  let concat_axis_const := Constant_create i64 [1] [concat_axis] in
  fold_left (unsqueeze_if_scalar concat_axis_const)
            (seq (k + 1) (length body_outputs - (k + 1)))
            body_outputs.

(** Lines 157 to 170: the rewrite of the body's condition output.
    [warning_text] is what [NGRAPH_WARN] is given, up to the final line
    break. *)
Definition warning_text : string :=
  "ONNX Loop: No identity or constant termination condition output body is not supported in current version".

Definition replace_termination_condition (body_outputs : OutputVector) : Comp OutputVector :=
  body_loop_out_cond ← at_ body_outputs 0;
  always_true ← is_termination_condition_always_true body_loop_out_cond;
  if always_true : bool then
    mret (<[0 := Constant_create boolean [1] [1%Z]]> body_outputs)
  else
    emit (Warn warning_text);; mret body_outputs.

(** Lines 198 to 210.  The two iterators are positions in [body_inputs] and
    [body_outputs]; dereferencing one at or past the end has no defined
    behaviour. *)
Record Wiring : Type := mkWiring {
  wired_loop : LoopOp;
  body_inputs_it : nat;
  body_outputs_it : nat;
  final_values : OutputVector
}.

Definition wire_dependency
    (body_inputs : ParameterVector) (body_outputs : OutputVector)
    (w : Wiring) (dep : Output) : Comp Wiring :=
  body_input ← subscript body_inputs (body_inputs_it w);
  body_output ← subscript body_outputs (body_outputs_it w);
  let l := set_merged_input (wired_loop w) body_input dep body_output in
  let '(l, final_value) := get_iter_value l body_output (-1) in
  mret (mkWiring l (S (body_inputs_it w)) (S (body_outputs_it w))
                 (final_values w ++ [final_value])).

Fixpoint wire_dependencies
    (body_inputs : ParameterVector) (body_outputs : OutputVector)
    (loop_carried_dependencies : OutputVector) (w : Wiring) : Comp Wiring :=
  match loop_carried_dependencies with
  | [] => mret w
  | dep :: deps =>
      w ← wire_dependency body_inputs body_outputs w dep;
      wire_dependencies body_inputs body_outputs deps w
  end.

(** Lines 212 to 219: one concatenated-slices output for every body output
    from the iterator to the end. *)
Definition wire_scan_output (acc : LoopOp * OutputVector) (body_output : Output)
    : LoopOp * OutputVector :=
  let concat_axis := 0%Z in
  let '(l, scan_output) :=
    get_concatenated_slices acc.1 body_output 0 1 1 (-1) concat_axis in
  (l, acc.2 ++ [scan_output]).

Definition wire_scan_outputs (l : LoopOp) (remaining : OutputVector)
    : LoopOp * OutputVector :=
  fold_left wire_scan_output remaining (l, []).

(** Lines 189 to 230: the loop construct and the output list. *)
Definition build_loop
    (trip_count termination_cond : Output)
    (loop_carried_dependencies : OutputVector)
    (body_inputs : ParameterVector) (body_outputs : OutputVector)
    : Comp (LoopOp * OutputVector) :=
  body_params ← range_from 2 body_inputs;
  first_body_input ← subscript body_inputs 0;
  let body_params := first_body_input :: body_params in
  let body := mkFunction body_outputs body_params in
  let l := make_Loop trip_count termination_cond in
  let spec_ports := mkSpecialBodyPorts 0 0 in
  let l := set_special_body_ports l spec_ports in
  let l := set_function l body in
  w ← wire_dependencies body_inputs body_outputs loop_carried_dependencies
        (mkWiring l 2 1 []);
  remaining ← range_from (body_outputs_it w) body_outputs;
  let '(l, scan_outputs) := wire_scan_outputs (wired_loop w) remaining in
  let node_outputs := push_back_all (final_values w) [] in
  let node_outputs := push_back_all scan_outputs node_outputs in
  mret (l, node_outputs).

(** What the lowering hands back: the C++ function returns [node_outputs];
    the [Loop] node, when one was built, is what those outputs point to. *)
Record Lowered : Type := mkLowered {
  node_outputs : OutputVector;
  loop_node : option LoopOp
}.

(** Lines 77 to 231. *)
Definition loop (node : Node) : Comp Lowered :=
  let inputs := ng_inputs node in
  loop_carried_dependencies ← range_from 2 inputs;
  body_graph ← get_attribute_value_body node;
  body_outputs ← get_ng_outputs body_graph;
  body_inputs ← get_ng_parameters body_graph;
  input0 ← at_ inputs 0;
  let trip_count := resolve_trip_count input0 in
  input1 ← at_ inputs 1;
  resolution ← resolve_termination_cond input1 loop_carried_dependencies;
  match resolution with
  | ReturnEarly node_outputs => mret (mkLowered node_outputs None)
  | Continue termination_cond =>
      let k := length loop_carried_dependencies in
      let body_outputs := scalar_handling k body_outputs in
      body_outputs ← replace_termination_condition body_outputs;
      CHECK_VALID_NODE body_graph_inputs (length body_inputs) (k + 2);;
      CHECK_VALID_NODE body_graph_outputs (length body_outputs) (k + 1);;
      '(l, node_outputs) ← build_loop trip_count termination_cond
                             loop_carried_dependencies body_inputs body_outputs;
      mret (mkLowered node_outputs (Some l))
  end.

(** ** Sample operations *)

Definition iter_num : ParameterNode := mkParameter "iter_num" i64 (Some []).
Definition cond_in : ParameterNode := mkParameter "cond_in" boolean (Some []).
Definition sum_in : ParameterNode := mkParameter "sum_in" f32 (Some [Some 1]).

Definition false_constant : Output := Constant boolean [] [0%Z].
Definition identity_cond : Output :=
  LogicalOr (Some []) (Param cond_in) false_constant.
Definition sum_out : Output := Op "Add" f32 (Some [Some 1]).
Definition scalar_scan : Output := Op "ReduceSum" f32 (Some []).
Definition vector_scan : Output := Op "Mul" f32 (Some [Some 3]).
Definition initial_sum : Output := Op "init" f32 (Some [Some 1]).

Definition running_sum_body : Subgraph :=
  mkSubgraph [identity_cond; sum_out; scalar_scan; vector_scan]
             [iter_num; cond_in; sum_in].

Definition running_sum_node : Node :=
  mkNode [NullNode; NullNode; initial_sum] running_sum_body.

(** The same operation with a constant-false condition input. *)
Definition zero_iteration_node : Node :=
  mkNode [NullNode; false_constant; initial_sum] running_sum_body.

(** A constant with several elements, the first of them false. *)
Definition false_then_true : Output := Constant boolean [3] [0%Z; 1%Z; 1%Z].

Definition mixed_condition_node : Node :=
  mkNode [NullNode; false_then_true; initial_sum] running_sum_body.

(** An operation without carried dependencies whose body has no output. *)
Definition no_output_body : Subgraph := mkSubgraph [] [iter_num; cond_in].
Definition no_output_node : Node := mkNode [NullNode; NullNode] no_output_body.

(** A body whose condition output is a logical-OR with a boolean constant
    of shape [{0}], which has no element. *)
Definition empty_constant : Output := Constant boolean [0] [].
Definition or_with_empty : Output := LogicalOr (Some []) (Param cond_in) empty_constant.
Definition or_with_empty_body : Subgraph :=
  mkSubgraph [or_with_empty; sum_out] [iter_num; cond_in; sum_in].
Definition or_with_empty_node : Node :=
  mkNode [NullNode; NullNode; initial_sum] or_with_empty_body.

(** A body with one parameter too few for its carried dependency, and one
    with no output for it. *)
Definition short_parameters_body : Subgraph :=
  mkSubgraph [Param cond_in; sum_out] [iter_num; cond_in].
Definition short_parameters_node : Node :=
  mkNode [NullNode; NullNode; initial_sum] short_parameters_body.

Definition short_outputs_body : Subgraph :=
  mkSubgraph [identity_cond] [iter_num; cond_in; sum_in].
Definition short_outputs_node : Node :=
  mkNode [NullNode; NullNode; initial_sum] short_outputs_body.

(** ** The specification's vocabulary

    The definitions below are not translations of code: they name the cases
    and the results that the specification talks about, so that the
    theorems can compare them with what [loop] computes. *)

(** The cases of input 1.  A constant is classified by its first element,
    converted to [bool]; a constant without elements has none. *)
Inductive ConditionInput : Type :=
| Omitted
| ConstantTrue
| ConstantFalse
| ConstantNoElements
| RuntimeValue.

Definition classify_condition (input1 : Output) : ConditionInput :=
  match input1 with
  | NullNode => Omitted
  | Constant _ _ [] => ConstantNoElements
  | Constant _ _ (v :: _) => if (v =? 0)%Z then ConstantFalse else ConstantTrue
  | _ => RuntimeValue
  end.

(** The general case is every case but the zero-iteration one (and the
    constant without elements, on which line 112 reads past the end). *)
Definition general_case (input1 : Output) : bool :=
  match classify_condition input1 with
  | Omitted | ConstantTrue | RuntimeValue => true
  | ConstantFalse | ConstantNoElements => false
  end.

(** "A logical-OR operation whose second operand is a compile-time boolean
    constant with value false". *)
Definition identity_pattern (cond_out : Output) : bool :=
  match cond_out with
  | LogicalOr _ _ (Constant boolean _ (v :: _)) => (v =? 0)%Z
  | _ => false
  end.

(** A logical-OR whose second operand is a boolean constant without
    elements: it has no value to compare with false. *)
Definition or_with_empty_constant (cond_out : Output) : bool :=
  match cond_out with
  | LogicalOr _ _ (Constant boolean _ []) => true
  | _ => false
  end.

(** "Statically known and rank-0". *)
Definition static_scalar (o : Output) : bool :=
  match get_partial_shape o with
  | Some [] => true
  | _ => false
  end.

(** The constants that the lowering synthesizes. *)
Definition true_constant : Output := Constant boolean [1] [1%Z].
Definition unbounded_trip_count : Output := Constant i64 [1] [(-1)%Z].
Definition axis_0 : Output := Constant i64 [1] [0%Z].

(** The scan-output normalizer, position by position. *)
Definition normalized (k i : nat) (o : Output) : Output :=
  if bool_decide (k + 1 <= i) && static_scalar o
  then make_Unsqueeze o axis_0
  else o.

(** The descriptions the loop construct ends up with. *)
Definition merged_inputs
    (params : ParameterVector) (deps successors : OutputVector)
    : list MergedInputDescription :=
  zip_with (fun p ds => mkMergedInput p ds.1 ds.2) params (zip deps successors).

Definition final_value_descriptions (body_values : OutputVector) : list OutputDescription :=
  map (fun o => BodyOutputDescription o (-1)) body_values.

Definition scan_descriptions (body_values : OutputVector) : list OutputDescription :=
  map (fun o => ConcatOutputDescription o 0 1 1 (-1) 0) body_values.

Definition built_loop
    (trip_count termination_cond : Output) (deps : OutputVector)
    (body_inputs : ParameterVector) (body_outputs : OutputVector) : LoopOp :=
  let k := length deps in
  mkLoop trip_count termination_cond
         (Some (mkSpecialBodyPorts 0 0))
         (Some (mkFunction body_outputs (take 1 body_inputs ++ drop 2 body_inputs)))
         (merged_inputs (take k (drop 2 body_inputs)) deps (take k (drop 1 body_outputs)))
         (final_value_descriptions (take k (drop 1 body_outputs))
            ++ scan_descriptions (drop (k + 1) body_outputs)).

(** The body outputs after both rewrites. *)
Definition rewritten_body_outputs (k : nat) (body_outputs : OutputVector) : OutputVector :=
  let body_outputs := imap (normalized k) body_outputs in
  match body_outputs with
  | cond_out :: rest =>
      if identity_pattern cond_out then true_constant :: rest else body_outputs
  | [] => []
  end.

(** The events of lines 84 to 86, and those of the general case. *)
Definition body_reads : Trace := [GetBodyAttribute; GetNgOutputs; GetNgParameters].

Definition analyzer_events (cond_out : Output) : Trace :=
  if identity_pattern cond_out then [] else [Warn warning_text].

Definition passed_checks : Trace :=
  [CheckValidNode body_graph_inputs true; CheckValidNode body_graph_outputs true].

(** The outcome of the lowering, case by case: what the specification's
    sections 4.1 to 4.6 and 7 amount to, with the order in which the code
    reaches the failures.  [loop_outcome_correct] proves that [loop]
    computes exactly this. *)
Definition general_outcome
    (input0 : Output) (deps : OutputVector) (b : Subgraph) (t : Trace)
    : Outcome Lowered * Trace :=
  let k := length deps in
  let n_in := length (ng_parameters b) in
  let n_out := length (ng_outputs b) in
  match ng_outputs b with
  | [] => (Thrown std_out_of_range, t)
  | cond_out :: _ =>
      if or_with_empty_constant cond_out then (Thrown std_out_of_range, t)
      else
        let t := t ++ analyzer_events cond_out in
        if bool_decide (k + 2 <= n_in) then
          if bool_decide (k + 1 <= n_out) then
            (Returned
               (mkLowered
                  (map LoopOutput (seq 0 k) ++ map LoopOutput (seq k (n_out - (k + 1))))
                  (Some (built_loop (resolve_trip_count input0) true_constant deps
                                    (ng_parameters b)
                                    (rewritten_body_outputs k (ng_outputs b))))),
             t ++ passed_checks)
          else
            (Thrown (node_validation_failure body_graph_outputs n_out (k + 1)),
             t ++ [CheckValidNode body_graph_inputs true;
                   CheckValidNode body_graph_outputs false])
        else
          (Thrown (node_validation_failure body_graph_inputs n_in (k + 2)),
           t ++ [CheckValidNode body_graph_inputs false])
  end.

Definition loop_outcome (node : Node) (t : Trace) : Outcome Lowered * Trace :=
  match ng_inputs node with
  | input0 :: input1 :: deps =>
      let t := t ++ body_reads in
      match classify_condition input1 with
      | ConstantNoElements => (Thrown undefined_behaviour, t)
      | ConstantFalse => (Returned (mkLowered (deps ++ deps) None), t)
      | Omitted | ConstantTrue | RuntimeValue =>
          general_outcome input0 deps (body_attribute node) t
      end
  | _ => (Thrown undefined_behaviour, t)
  end.

(** ** Running a computation *)

Section Run.
Context {A B : Type}.
Implicit Types (c : Comp A) (k : A -> Comp B) (t : Trace).

Lemma run_bind c k t :
  (c ≫= k) t =
  match c t with
  | (Returned a, t') => k a t'
  | (Thrown e, t') => (Thrown e, t')
  end.
Proof. reflexivity. Qed.

Lemma run_bind_returned c k t a t' :
  c t = (Returned a, t') -> (c ≫= k) t = k a t'.
Proof. intros Hc. rewrite run_bind, Hc. reflexivity. Qed.

Lemma run_bind_thrown c k t e t' :
  c t = (Thrown e, t') -> (c ≫= k) t = (Thrown e, t').
Proof. intros Hc. rewrite run_bind, Hc. reflexivity. Qed.

Lemma run_mret (a : A) t : (mret a : Comp A) t = (Returned a, t).
Proof. reflexivity. Qed.

End Run.

Lemma run_emit {B} (ev : Event) (k : unit -> Comp B) (t : Trace) :
  (emit ev ≫= k) t = k tt (t ++ [ev]).
Proof. reflexivity. Qed.

Section Vectors.
Context {A : Type}.
Implicit Types (v : list A) (t : Trace).

Lemma at_Some v i x t : v !! i = Some x -> at_ v i t = (Returned x, t).
Proof. unfold at_. intros ->. reflexivity. Qed.

Lemma at_None v i t : v !! i = None -> at_ v i t = (Thrown std_out_of_range, t).
Proof. unfold at_. intros ->. reflexivity. Qed.

Lemma subscript_Some v i x t : v !! i = Some x -> subscript v i t = (Returned x, t).
Proof. unfold subscript. intros ->. reflexivity. Qed.

Lemma subscript_None v i t :
  v !! i = None -> subscript v i t = (Thrown undefined_behaviour, t).
Proof. unfold subscript. intros ->. reflexivity. Qed.

Lemma range_from_le n v t :
  n <= length v -> range_from n v t = (Returned (drop n v), t).
Proof. intros Hn. unfold range_from. rewrite decide_True by exact Hn. reflexivity. Qed.

Lemma range_from_gt n v t :
  length v < n -> range_from n v t = (Thrown undefined_behaviour, t).
Proof.
  intros Hn. unfold range_from. rewrite decide_False by lia. reflexivity.
Qed.

(** Pushing every element of [src] onto [dst] appends [src]. *)
Lemma push_back_all_app (src dst : list A) : push_back_all src dst = dst ++ src.
Proof.
  unfold push_back_all. revert dst.
  induction src as [|x src IH]; intros dst; simpl.
  - symmetry. apply app_nil_r.
  - rewrite IH, <- app_assoc. reflexivity.
Qed.

End Vectors.

(** ** The stages, one by one *)

Lemma resolve_termination_cond_run input1 deps t :
  resolve_termination_cond input1 deps t =
  match classify_condition input1 with
  | Omitted | ConstantTrue | RuntimeValue => (Returned (Continue true_constant), t)
  | ConstantFalse => (Returned (ReturnEarly (deps ++ deps)), t)
  | ConstantNoElements => (Thrown undefined_behaviour, t)
  end.
Proof.
  unfold resolve_termination_cond.
  destruct input1 as [|et shape values| | | | |]; try reflexivity.
  destruct values as [|v values]; [reflexivity|].
  cbn [is_null is_constant classify_condition cast_vector_bool map].
  rewrite (run_bind_returned _ _ t (negb (v =? 0)%Z) t) by reflexivity.
  destruct (v =? 0)%Z; cbn [negb]; [|reflexivity].
  rewrite !push_back_all_app. reflexivity.
Qed.

Lemma is_termination_condition_always_true_run cond_out t :
  is_termination_condition_always_true cond_out t =
  if or_with_empty_constant cond_out
  then (Thrown std_out_of_range, t)
  else (Returned (identity_pattern cond_out), t).
Proof.
  destruct cond_out as [| | |ps a second| | |]; try reflexivity.
  destruct second as [|et shape values| | | | |]; try reflexivity.
  destruct et; try reflexivity.
  destruct values as [|v values]; [reflexivity|].
  cbn. destruct (v =? 0)%Z; reflexivity.
Qed.

Lemma CHECK_VALID_NODE_pass which actual required t :
  required <= actual ->
  CHECK_VALID_NODE which actual required t = (Returned tt, t ++ [CheckValidNode which true]).
Proof.
  intros H. unfold CHECK_VALID_NODE. rewrite run_emit.
  rewrite bool_decide_eq_true_2 by exact H. reflexivity.
Qed.

Lemma CHECK_VALID_NODE_fail which actual required t :
  actual < required ->
  CHECK_VALID_NODE which actual required t =
  (Thrown (node_validation_failure which actual required),
   t ++ [CheckValidNode which false]).
Proof.
  intros H. unfold CHECK_VALID_NODE. rewrite run_emit.
  rewrite bool_decide_eq_false_2 by lia. reflexivity.
Qed.

(** *** Scalar handling *)

Lemma static_scalar_spec o :
  is_static (get_partial_shape o) && is_scalar (to_shape (get_partial_shape o))
  = static_scalar o.
Proof.
  unfold static_scalar.
  destruct (get_partial_shape o) as [[|d dims]|]; [reflexivity| |reflexivity].
  cbn [to_shape map is_scalar]. apply andb_false_r.
Qed.

Lemma unsqueeze_if_scalar_lookup c outs i j :
  unsqueeze_if_scalar c outs i !! j =
  (fun o => if bool_decide (i = j) && static_scalar o then make_Unsqueeze o c else o)
    <$> outs !! j.
Proof.
  unfold unsqueeze_if_scalar.
  destruct (outs !! i) as [o|] eqn:Hi.
  - rewrite static_scalar_spec.
    destruct (decide (i = j)) as [->|Hne].
    + rewrite Hi. cbn. rewrite bool_decide_eq_true_2 by reflexivity. cbn.
      destruct (static_scalar o).
      * apply list_lookup_insert_eq. eapply lookup_lt_Some, Hi.
      * exact Hi.
    + rewrite bool_decide_eq_false_2 by exact Hne. cbn.
      destruct (static_scalar o).
      * rewrite list_lookup_insert_ne by exact Hne. destruct (outs !! j); reflexivity.
      * destruct (outs !! j); reflexivity.
  - destruct (outs !! j) as [o|] eqn:Hj; [|reflexivity].
    cbn. rewrite bool_decide_eq_false_2; [reflexivity|].
    intros ->. congruence.
Qed.

Lemma unsqueeze_if_scalar_length c outs i :
  length (unsqueeze_if_scalar c outs i) = length outs.
Proof.
  unfold unsqueeze_if_scalar.
  destruct (outs !! i); [|reflexivity].
  destruct (_ && _); [apply length_insert|reflexivity].
Qed.

Lemma scalar_loop_lookup c n : forall a outs j,
  fold_left (unsqueeze_if_scalar c) (seq a n) outs !! j =
  (fun o => if bool_decide (a <= j < a + n) && static_scalar o
            then make_Unsqueeze o c else o) <$> outs !! j.
Proof.
  induction n as [|n IH]; intros a outs j.
  - cbn [seq fold_left].
    destruct (outs !! j) as [o|]; [|reflexivity].
    cbn. rewrite bool_decide_eq_false_2 by lia. reflexivity.
  - cbn [seq fold_left]. rewrite IH, unsqueeze_if_scalar_lookup.
    destruct (outs !! j) as [o|]; [|reflexivity].
    cbn. f_equal.
    destruct (decide (a = j)) as [->|Hne].
    + rewrite (bool_decide_eq_false_2 (S j <= j < S j + n)) by lia.
      rewrite (bool_decide_eq_true_2 (j = j)) by reflexivity.
      rewrite (bool_decide_eq_true_2 (j <= j < j + S n)) by lia.
      reflexivity.
    + rewrite (bool_decide_eq_false_2 (a = j)) by exact Hne. cbn.
      rewrite (bool_decide_ext (S a <= j < S a + n) (a <= j < a + S n)) by lia.
      reflexivity.
Qed.

Lemma scalar_handling_imap k outs :
  scalar_handling k outs = imap (normalized k) outs.
Proof.
  apply list_eq. intros j.
  unfold scalar_handling. cbn zeta.
  rewrite scalar_loop_lookup, list_lookup_imap.
  destruct (outs !! j) as [o|] eqn:Hj; [|reflexivity].
  cbn. f_equal. unfold normalized, axis_0, Constant_create.
  apply lookup_lt_Some in Hj.
  rewrite (bool_decide_ext (k + 1 <= j < k + 1 + (length outs - (k + 1))) (k + 1 <= j)) by lia.
  reflexivity.
Qed.

(** *** Wiring the carried dependencies and the scan outputs *)

Lemma wire_dependency_run ins outs w dep t p o :
  ins !! body_inputs_it w = Some p ->
  outs !! body_outputs_it w = Some o ->
  wire_dependency ins outs w dep t =
  (Returned
     (mkWiring
        (add_output (set_merged_input (wired_loop w) p dep o)
                    (BodyOutputDescription o (-1))).1
        (S (body_inputs_it w)) (S (body_outputs_it w))
        (final_values w ++ [LoopOutput (length (output_descriptions (wired_loop w)))])),
   t).
Proof.
  intros Hp Ho. unfold wire_dependency.
  rewrite (run_bind_returned _ _ t p t) by (apply subscript_Some, Hp).
  rewrite (run_bind_returned _ _ t o t) by (apply subscript_Some, Ho).
  reflexivity.
Qed.

Lemma wire_dependencies_run ins outs deps : forall w t,
  body_inputs_it w + length deps <= length ins ->
  body_outputs_it w + length deps <= length outs ->
  wire_dependencies ins outs deps w t =
  let l := wired_loop w in
  let n := length deps in
  let successors := take n (drop (body_outputs_it w) outs) in
  (Returned
     (mkWiring
        (mkLoop (trip_count l) (execution_condition l) (special_body_ports l) (body l)
                (input_descriptions l
                   ++ merged_inputs (take n (drop (body_inputs_it w) ins)) deps successors)
                (output_descriptions l ++ final_value_descriptions successors))
        (body_inputs_it w + n) (body_outputs_it w + n)
        (final_values w ++ map LoopOutput (seq (length (output_descriptions l)) n))),
   t).
Proof.
  induction deps as [|dep deps IH]; intros [l a b fv] t Ha Hb; cbn in Ha, Hb |- *.
  - rewrite !app_nil_r, !Nat.add_0_r. destruct l; reflexivity.
  - destruct (lookup_lt_is_Some_2 ins a) as [p Hp]; [lia|].
    destruct (lookup_lt_is_Some_2 outs b) as [o Ho]; [lia|].
    erewrite run_bind_returned; [|apply (wire_dependency_run _ _ _ _ _ p o); assumption].
    rewrite IH by (cbn; lia). cbn.
    rewrite (drop_S ins p a Hp), (drop_S outs o b Ho). cbn.
    rewrite length_app. cbn.
    rewrite <- !app_assoc, !Nat.add_succ_r, Nat.add_0_r. reflexivity.
Qed.

Lemma wire_scan_outputs_fold remaining : forall l acc,
  fold_left wire_scan_output remaining (l, acc) =
  (mkLoop (trip_count l) (execution_condition l) (special_body_ports l) (body l)
          (input_descriptions l)
          (output_descriptions l ++ scan_descriptions remaining),
   acc ++ map LoopOutput (seq (length (output_descriptions l)) (length remaining))).
Proof.
  induction remaining as [|o remaining IH]; intros l acc; cbn.
  - rewrite !app_nil_r. destruct l; reflexivity.
  - unfold wire_scan_output at 1. cbn. rewrite IH. cbn.
    rewrite length_app. cbn.
    rewrite <- !app_assoc, Nat.add_1_r. reflexivity.
Qed.

Lemma build_loop_run tc c deps ins outs t :
  length deps + 2 <= length ins ->
  length deps + 1 <= length outs ->
  build_loop tc c deps ins outs t =
  (Returned (built_loop tc c deps ins outs,
             map LoopOutput (seq 0 (length deps))
               ++ map LoopOutput (seq (length deps) (length outs - (length deps + 1)))),
   t).
Proof.
  intros Hins Houts. unfold build_loop.
  rewrite (run_bind_returned _ _ t (drop 2 ins) t) by (apply range_from_le; lia).
  destruct ins as [|p0 ins]; [cbn in Hins; lia|].
  rewrite (run_bind_returned _ _ t p0 t) by reflexivity.
  erewrite run_bind_returned;
    [|apply wire_dependencies_run; cbn [body_inputs_it body_outputs_it length] in *; lia].
  cbn [wired_loop body_inputs_it body_outputs_it final_values].
  rewrite (run_bind_returned _ _ t (drop (1 + length deps) outs) t)
    by (apply range_from_le; lia).
  unfold wire_scan_outputs. rewrite wire_scan_outputs_fold.
  rewrite !push_back_all_app.
  cbn [set_function set_special_body_ports make_Loop trip_count execution_condition
       special_body_ports body input_descriptions output_descriptions app length].
  rewrite run_mret. unfold built_loop.
  unfold final_value_descriptions at 2. rewrite length_map, length_take, length_drop.
  rewrite length_drop.
  replace (length deps `min` (length outs - 1)) with (length deps) by lia.
  replace (length outs - (1 + length deps)) with (length outs - (length deps + 1)) by lia.
  replace (1 + length deps) with (length deps + 1) by lia.
  reflexivity.
Qed.

(** *** The rewrite of the condition output *)

Lemma replace_termination_condition_run outs t :
  replace_termination_condition outs t =
  match outs with
  | [] => (Thrown std_out_of_range, t)
  | cond_out :: rest =>
      if or_with_empty_constant cond_out then (Thrown std_out_of_range, t)
      else if identity_pattern cond_out then (Returned (true_constant :: rest), t)
      else (Returned outs, t ++ [Warn warning_text])
  end.
Proof.
  unfold replace_termination_condition.
  destruct outs as [|cond_out rest]; [reflexivity|].
  rewrite (run_bind_returned _ _ t cond_out t) by reflexivity.
  rewrite run_bind, is_termination_condition_always_true_run.
  destruct (or_with_empty_constant cond_out); [reflexivity|].
  destruct (identity_pattern cond_out); reflexivity.
Qed.

Lemma normalized_at_condition k o : normalized k 0 o = o.
Proof.
  unfold normalized. rewrite bool_decide_eq_false_2 by lia. reflexivity.
Qed.

(** ** The lowering, case by case *)

Lemma general_case_run input0 deps b t :
  let k := length deps in
  (let outs := scalar_handling k (ng_outputs b) in
   outs ← replace_termination_condition outs;
   CHECK_VALID_NODE body_graph_inputs (length (ng_parameters b)) (k + 2);;
   CHECK_VALID_NODE body_graph_outputs (length outs) (k + 1);;
   '(l, node_outputs) ← build_loop (resolve_trip_count input0) true_constant
                          deps (ng_parameters b) outs;
   mret (mkLowered node_outputs (Some l))) t
  = general_outcome input0 deps b t.
Proof.
  intros k. cbn zeta. unfold general_outcome. fold k.
  rewrite scalar_handling_imap, run_bind, replace_termination_condition_run.
  destruct (ng_outputs b) as [|cond_out rest] eqn:Houts; [reflexivity|].
  cbn [imap]. rewrite normalized_at_condition.
  destruct (or_with_empty_constant cond_out); [reflexivity|].
  set (outs' := if identity_pattern cond_out
                then true_constant :: imap (normalized k ∘ S) rest
                else cond_out :: imap (normalized k ∘ S) rest).
  set (t1 := t ++ analyzer_events cond_out).
  assert (Hlen : length outs' = length (cond_out :: rest)).
  { subst outs'. destruct (identity_pattern cond_out); cbn; rewrite length_imap; reflexivity. }
  assert (Hout : rewritten_body_outputs k (cond_out :: rest) = outs').
  { unfold rewritten_body_outputs. cbn [imap]. rewrite normalized_at_condition.
    reflexivity. }
  transitivity
    ((CHECK_VALID_NODE body_graph_inputs (length (ng_parameters b)) (k + 2);;
      CHECK_VALID_NODE body_graph_outputs (length outs') (k + 1);;
      '(l, node_outputs) ← build_loop (resolve_trip_count input0) true_constant
                             deps (ng_parameters b) outs';
      mret (mkLowered node_outputs (Some l))) t1).
  { subst outs' t1. unfold analyzer_events.
    destruct (identity_pattern cond_out); [rewrite app_nil_r|]; reflexivity. }
  rewrite Hout, Hlen.
  destruct (decide (k + 2 <= length (ng_parameters b))) as [Hin|Hin].
  - rewrite (run_bind_returned _ _ t1 tt _ (CHECK_VALID_NODE_pass _ _ _ _ Hin)).
    rewrite (bool_decide_eq_true_2 _ Hin).
    destruct (decide (k + 1 <= length (cond_out :: rest))) as [Ho|Ho].
    + rewrite (run_bind_returned _ _ _ tt _ (CHECK_VALID_NODE_pass _ _ _ _ Ho)).
      rewrite (bool_decide_eq_true_2 _ Ho).
      erewrite run_bind_returned; [|apply build_loop_run; [exact Hin|rewrite Hlen; exact Ho]].
      rewrite Hlen, <- app_assoc. reflexivity.
    + rewrite (bool_decide_eq_false_2 _ Ho).
      erewrite run_bind_thrown; [|apply CHECK_VALID_NODE_fail; lia].
      rewrite <- app_assoc. reflexivity.
  - rewrite (bool_decide_eq_false_2 _ Hin).
    erewrite run_bind_thrown; [|apply CHECK_VALID_NODE_fail; lia].
    reflexivity.
Qed.

(** [loop] computes [loop_outcome]. *)
Lemma loop_outcome_correct node t : loop node t = loop_outcome node t.
Proof.
  unfold loop, loop_outcome. cbn zeta.
  destruct node as [inputs b]. cbn [ng_inputs body_attribute].
  destruct inputs as [|input0 [|input1 deps]];
    try (rewrite (run_bind_thrown _ _ t undefined_behaviour t)
           by (apply range_from_gt; cbn; lia); reflexivity).
  rewrite (run_bind_returned _ _ t deps t) by (apply range_from_le; cbn; lia).
  unfold get_attribute_value_body, get_ng_outputs, get_ng_parameters.
  cbn [body_attribute].
  rewrite (run_bind_returned _ _ t b (t ++ [GetBodyAttribute])) by reflexivity.
  rewrite (run_bind_returned _ _ _ (ng_outputs b) ((t ++ [GetBodyAttribute]) ++ [GetNgOutputs]))
    by reflexivity.
  rewrite (run_bind_returned _ _ _ (ng_parameters b)
             (((t ++ [GetBodyAttribute]) ++ [GetNgOutputs]) ++ [GetNgParameters]))
    by reflexivity.
  rewrite <- !app_assoc. cbn [app]. fold body_reads.
  rewrite (run_bind_returned _ _ _ input0 (t ++ body_reads)) by reflexivity.
  rewrite (run_bind_returned _ _ _ input1 (t ++ body_reads)) by reflexivity.
  rewrite run_bind, resolve_termination_cond_run.
  destruct (classify_condition input1); try reflexivity;
    apply general_case_run.
Qed.

(** What [loop] returns determines the shape of the operation. *)
Lemma loop_built_inv node t outs l t' :
  loop node t = (Returned (mkLowered outs (Some l)), t') ->
  exists input0 input1 deps cond_out rest,
    ng_inputs node = input0 :: input1 :: deps /\
    general_case input1 = true /\
    ng_outputs (body_attribute node) = cond_out :: rest /\
    or_with_empty_constant cond_out = false /\
    length deps + 2 <= length (ng_parameters (body_attribute node)) /\
    length deps + 1 <= length (ng_outputs (body_attribute node)) /\
    outs = map LoopOutput (seq 0 (length deps))
             ++ map LoopOutput
                  (seq (length deps)
                       (length (ng_outputs (body_attribute node)) - (length deps + 1))) /\
    l = built_loop (resolve_trip_count input0) true_constant deps
                   (ng_parameters (body_attribute node))
                   (rewritten_body_outputs (length deps) (ng_outputs (body_attribute node))) /\
    t' = t ++ body_reads ++ analyzer_events cond_out ++ passed_checks.
Proof.
  rewrite loop_outcome_correct. unfold loop_outcome, general_case.
  destruct (ng_inputs node) as [|input0 [|input1 deps]]; try discriminate.
  intros H. exists input0, input1, deps.
  assert (Hg : general_outcome input0 deps (body_attribute node) (t ++ body_reads)
               = (Returned (mkLowered outs (Some l)), t')
               /\ general_case input1 = true).
  { unfold general_case. destruct (classify_condition input1);
      first [discriminate | split; [exact H|reflexivity]]. }
  clear H. destruct Hg as [H Hgen]. unfold general_outcome in H.
  destruct (ng_outputs (body_attribute node)) as [|cond_out rest] eqn:Houts;
    [discriminate|].
  exists cond_out, rest.
  destruct (or_with_empty_constant cond_out); [discriminate|].
  destruct (bool_decide (length deps + 2 <= _)) eqn:Hin; [|discriminate].
  destruct (bool_decide (length deps + 1 <= _)) eqn:Hout; [|discriminate].
  apply bool_decide_eq_true_1 in Hin, Hout.
  injection H as <- <- <-.
  rewrite <- !app_assoc. repeat split; try assumption; try reflexivity.
Qed.

(** Conversely, an operation of that shape is lowered to a loop. *)
Lemma loop_built input0 input1 deps b cond_out rest t :
  general_case input1 = true ->
  ng_outputs b = cond_out :: rest ->
  or_with_empty_constant cond_out = false ->
  length deps + 2 <= length (ng_parameters b) ->
  length deps <= length rest ->
  loop (mkNode (input0 :: input1 :: deps) b) t =
  (Returned
     (mkLowered
        (map LoopOutput (seq 0 (length deps))
           ++ map LoopOutput (seq (length deps) (length rest - length deps)))
        (Some (built_loop (resolve_trip_count input0) true_constant deps
                          (ng_parameters b)
                          (rewritten_body_outputs (length deps) (ng_outputs b))))),
   t ++ body_reads ++ analyzer_events cond_out ++ passed_checks).
Proof.
  intros Hgen Houts Hor Hin Hrest.
  rewrite loop_outcome_correct. unfold loop_outcome, general_case in *.
  cbn [ng_inputs body_attribute].
  assert (Hg : general_outcome input0 deps b (t ++ body_reads) =
               (Returned
                  (mkLowered
                     (map LoopOutput (seq 0 (length deps))
                        ++ map LoopOutput (seq (length deps) (length rest - length deps)))
                     (Some (built_loop (resolve_trip_count input0) true_constant deps
                                       (ng_parameters b)
                                       (rewritten_body_outputs (length deps) (ng_outputs b))))),
                t ++ body_reads ++ analyzer_events cond_out ++ passed_checks)).
  { unfold general_outcome. rewrite Houts, Hor.
    rewrite (bool_decide_eq_true_2 _ Hin).
    rewrite bool_decide_eq_true_2 by (cbn [length]; lia).
    cbn [length].
    replace (S (length rest) - (length deps + 1)) with (length rest - length deps) by lia.
    rewrite <- !app_assoc. reflexivity. }
  destruct (classify_condition input1); first [discriminate | exact Hg].
Qed.

(** * The claims *)

(** ** Optional inputs (section 4.1) *)

(** C9.  When input 0 is the null sentinel the resolved trip count is the
    constant -1 (of type i64, shape {1}); otherwise it is input 0 itself.
    The resolved value is the trip count of the loop construct whenever one
    is built. *)
Theorem trip_count_resolution (input0 : Output) :
  (is_null input0 = true ->
   resolve_trip_count input0 = Constant i64 [1] [(-1)%Z]) /\
  (is_null input0 = false -> resolve_trip_count input0 = input0) /\
  (forall input1 deps b t outs l t',
      loop (mkNode (input0 :: input1 :: deps) b) t
        = (Returned (mkLowered outs (Some l)), t') ->
      trip_count l = resolve_trip_count input0).
Proof.
  unfold resolve_trip_count, Constant_create. repeat split.
  - intros ->. reflexivity.
  - intros ->. reflexivity.
  - intros input1 deps b t outs l t' H.
    apply loop_built_inv in H.
    destruct H as (i0 & i1 & ds & c & r & Hin & _ & _ & _ & _ & _ & _ & -> & _).
    cbn [ng_inputs] in Hin. injection Hin as <- <- <-. reflexivity.
Qed.

Lemma trip_count_resolution_witness :
  resolve_trip_count NullNode = Constant i64 [1] [(-1)%Z] /\
  resolve_trip_count initial_sum = initial_sum /\
  exists outs l t',
    loop running_sum_node [] = (Returned (mkLowered outs (Some l)), t') /\
    trip_count l = Constant i64 [1] [(-1)%Z].
Proof.
  split; [|split].
  - apply (proj1 (trip_count_resolution NullNode)). reflexivity.
  - apply (proj1 (proj2 (trip_count_resolution initial_sum))). reflexivity.
  - eexists _, _, _. split; [vm_compute; reflexivity|].
    eapply (proj2 (proj2 (trip_count_resolution NullNode))
              NullNode [initial_sum] running_sum_body []).
    vm_compute. reflexivity.
Defined.

(** C8.  The resolved termination condition is the constant true (boolean,
    shape {1}) when input 1 is the null sentinel, when it is a boolean
    constant whose value is true, and when it is neither null nor a
    constant, whatever it evaluates to at run time; and that constant is the
    execution condition of every loop construct the lowering builds. *)
Theorem termination_condition_resolution (input1 : Output) (deps : list Output) (t : Trace) :
  is_null input1 = true
  \/ (exists shape v values, input1 = Constant boolean shape (v :: values) /\ v <> 0%Z)
  \/ (is_null input1 = false /\ is_constant input1 = false) ->
  resolve_termination_cond input1 deps t
    = (Returned (Continue (Constant boolean [1] [1%Z])), t) /\
  (forall input0 b outs l t',
      loop (mkNode (input0 :: input1 :: deps) b) t
        = (Returned (mkLowered outs (Some l)), t') ->
      execution_condition l = Constant boolean [1] [1%Z]).
Proof.
  intros Hcase. split.
  - rewrite resolve_termination_cond_run.
    destruct Hcase as [Hnull | [(shape & v & values & -> & Hv) | [Hnull Hconst]]].
    + destruct input1; try discriminate. reflexivity.
    + cbn. apply Z.eqb_neq in Hv. rewrite Hv. reflexivity.
    + destruct input1; try discriminate; reflexivity.
  - intros input0 b outs l t' H.
    apply loop_built_inv in H.
    destruct H as (i0 & i1 & ds & c & r & _ & _ & _ & _ & _ & _ & _ & -> & _).
    reflexivity.
Qed.

Lemma termination_condition_resolution_witness :
  resolve_termination_cond NullNode [initial_sum] []
    = (Returned (Continue (Constant boolean [1] [1%Z])), []) /\
  resolve_termination_cond (Constant boolean [1] [1%Z]) [initial_sum] []
    = (Returned (Continue (Constant boolean [1] [1%Z])), []) /\
  resolve_termination_cond (Param cond_in) [initial_sum] []
    = (Returned (Continue (Constant boolean [1] [1%Z])), []).
Proof.
  split; [|split].
  - refine (proj1 (termination_condition_resolution NullNode [initial_sum] [] _)).
    left. reflexivity.
  - refine (proj1 (termination_condition_resolution
                     (Constant boolean [1] [1%Z]) [initial_sum] [] _)).
    right. left. exists [1], 1%Z, []. split; [reflexivity|discriminate].
  - refine (proj1 (termination_condition_resolution (Param cond_in) [initial_sum] [] _)).
    right. right. split; reflexivity.
Defined.

(** C10.  A constant input 1 is classified by its first element alone: when
    that element is false the lowering returns the zero-iteration result,
    and when it is true the condition resolves to the synthesized constant
    true, whatever the remaining elements are. *)
Theorem constant_condition_first_element
    (et : element_type) (shape : list nat) (v : Z) (values : list Z)
    (input0 : Output) (deps : list Output) (b : Subgraph) (t : Trace) :
  resolve_termination_cond (Constant et shape (v :: values)) deps t
    = resolve_termination_cond (Constant et shape [v]) deps t /\
  (v = 0%Z ->
   loop (mkNode (input0 :: Constant et shape (v :: values) :: deps) b) t
     = (Returned (mkLowered (deps ++ deps) None), t ++ body_reads)) /\
  (v <> 0%Z ->
   resolve_termination_cond (Constant et shape (v :: values)) deps t
     = (Returned (Continue (Constant boolean [1] [1%Z])), t)).
Proof.
  split; [|split].
  - rewrite !resolve_termination_cond_run. reflexivity.
  - intros ->. rewrite loop_outcome_correct. reflexivity.
  - intros Hv. rewrite resolve_termination_cond_run. cbn.
    apply Z.eqb_neq in Hv. rewrite Hv. reflexivity.
Qed.

Lemma constant_condition_first_element_witness :
  loop mixed_condition_node []
    = (Returned (mkLowered [initial_sum; initial_sum] None), body_reads) /\
  resolve_termination_cond (Constant boolean [3] [1%Z; 0%Z; 0%Z]) [initial_sum] []
    = (Returned (Continue (Constant boolean [1] [1%Z])), []).
Proof.
  split.
  - apply (proj1 (proj2 (constant_condition_first_element
                           boolean [3] 0%Z [1%Z; 1%Z] NullNode [initial_sum]
                           running_sum_body []))).
    reflexivity.
  - apply (proj2 (proj2 (constant_condition_first_element
                           boolean [3] 1%Z [0%Z; 0%Z] NullNode [initial_sum]
                           running_sum_body []))).
    discriminate.
Defined.

(** ** The zero-iteration fast path (section 4.2) *)

(** C4.  For an operation with k carried dependencies whose input 1 is a
    constant with value false, the lowering returns 2k outputs, the first k
    and the last k both being the initial carried-dependency inputs in
    order, and builds no loop construct. *)
Theorem zero_iteration_outputs
    (input0 : Output) (et : element_type) (shape : list nat) (values : list Z)
    (deps : list Output) (b : Subgraph) (t : Trace) :
  exists outs t',
    loop (mkNode (input0 :: Constant et shape (0%Z :: values) :: deps) b) t
      = (Returned (mkLowered outs None), t') /\
    length outs = 2 * length deps /\
    take (length deps) outs = deps /\
    drop (length deps) outs = deps.
Proof.
  exists (deps ++ deps), (t ++ body_reads). split; [|split; [|split]].
  - rewrite loop_outcome_correct. reflexivity.
  - rewrite length_app. lia.
  - apply take_app_length.
  - apply drop_app_length.
Qed.

(** C3, as amended.  On the zero-iteration path the body sub-graph is
    fetched and its outputs and parameters are read all the same, since
    lines 84 to 86 run before input 1 is looked at; no validation of the
    body is performed along that path. *)
Theorem zero_iteration_body_events
    (input0 : Output) (et : element_type) (shape : list nat) (values : list Z)
    (deps : list Output) (b : Subgraph) (t : Trace) :
  exists r t',
    loop (mkNode (input0 :: Constant et shape (0%Z :: values) :: deps) b) t
      = (Returned r, t') /\
    t' = t ++ [GetBodyAttribute; GetNgOutputs; GetNgParameters] /\
    forall which holds, CheckValidNode which holds ∉ drop (length t) t'.
Proof.
  exists (mkLowered (deps ++ deps) None),
         (t ++ [GetBodyAttribute; GetNgOutputs; GetNgParameters]).
  split; [rewrite loop_outcome_correct; reflexivity|].
  split; [reflexivity|].
  intros which holds. rewrite drop_app_length.
  rewrite !elem_of_cons, elem_of_nil. intuition discriminate.
Qed.

(** C3, as stated, fails: the lowering of an operation with a constant-false
    condition returns without a loop construct, and has fetched the body
    graph on the way. *)
Lemma zero_iteration_fetches_body :
  exists outs t',
    loop zero_iteration_node [] = (Returned (mkLowered outs None), t') /\
    GetBodyAttribute ∈ t' /\
    GetNgOutputs ∈ t' /\
    GetNgParameters ∈ t'.
Proof.
  exists [initial_sum; initial_sum], body_reads.
  split; [vm_compute; reflexivity|].
  unfold body_reads. split; [|split]; repeat constructor.
Qed.

(** ** The body signature check (section 4.3) *)

(** C2 fails on this input.  The body has no output although one is
    required; the lowering leaves with the out-of-range exception of
    [body_outputs.at(0)] (line 157), and no [CHECK_VALID_NODE] has run. *)
Theorem no_output_body_out_of_range :
  length (ng_outputs (body_attribute no_output_node))
    < length (drop 2 (ng_inputs no_output_node)) + 1 /\
  loop no_output_node []
    = (Thrown std_out_of_range, [GetBodyAttribute; GetNgOutputs; GetNgParameters]).
Proof. split; [cbn; lia|vm_compute; reflexivity]. Qed.

(** With at least one body output the two checks do decide: a body with too
    few parameters or too few outputs is refused with the validation
    failure that carries the two counts. *)
Lemma short_body_signature_refused input0 input1 deps b cond_out rest t :
  general_case input1 = true ->
  ng_outputs b = cond_out :: rest ->
  or_with_empty_constant cond_out = false ->
  let k := length deps in
  let n_in := length (ng_parameters b) in
  let n_out := length (ng_outputs b) in
  (n_in < k + 2 ->
   (loop (mkNode (input0 :: input1 :: deps) b) t).1
     = Thrown (node_validation_failure body_graph_inputs n_in (k + 2))) /\
  (k + 2 <= n_in -> n_out < k + 1 ->
   (loop (mkNode (input0 :: input1 :: deps) b) t).1
     = Thrown (node_validation_failure body_graph_outputs n_out (k + 1))).
Proof.
  intros Hgen Houts Hor k n_in n_out. subst k n_in n_out.
  rewrite loop_outcome_correct. unfold loop_outcome, general_case in *.
  cbn [ng_inputs body_attribute].
  destruct (classify_condition input1); try discriminate;
    unfold general_outcome; rewrite Houts, Hor; rewrite <- Houts;
    (split;
     [ intros Hin; rewrite bool_decide_eq_false_2 by lia; reflexivity
     | intros Hin Hout; rewrite (bool_decide_eq_true_2 _ Hin);
       rewrite bool_decide_eq_false_2 by lia; reflexivity ]).
Qed.

(** ** The scan-output normalizer (section 4.4) *)

(** C6.  The pass keeps the number of body outputs.  An output at a
    position from k+1 on whose shape is static and of rank 0 is replaced by
    an [Unsqueeze] of it along axis 0, of shape {1}: one leading dimension
    of size 1 added to the empty shape.  Every output before that position,
    and every output whose shape is dynamic or not a scalar, stays as it
    is. *)
Theorem scalar_handling_spec (k : nat) (body_outputs : list Output) :
  length (scalar_handling k body_outputs) = length body_outputs /\
  forall i o,
    body_outputs !! i = Some o ->
    (k + 1 <= i -> get_partial_shape o = Some [] ->
     scalar_handling k body_outputs !! i
       = Some (Unsqueeze (Some [Some 1]) o (Constant i64 [1] [0%Z])) /\
     get_partial_shape (Unsqueeze (Some [Some 1]) o (Constant i64 [1] [0%Z]))
       = Some (Some 1 :: [])) /\
    (i < k + 1 \/ get_partial_shape o <> Some [] ->
     scalar_handling k body_outputs !! i = Some o).
Proof.
  rewrite scalar_handling_imap. split; [apply length_imap|].
  intros i o Hi. rewrite list_lookup_imap, Hi. cbn [fmap option_fmap option_map].
  unfold normalized, static_scalar, make_Unsqueeze, axis_0. split.
  - intros Hpos Hshape. rewrite Hshape.
    rewrite bool_decide_eq_true_2 by exact Hpos. split; reflexivity.
  - intros [Hpos | Hshape].
    + rewrite bool_decide_eq_false_2 by lia. reflexivity.
    + destruct (get_partial_shape o) as [[|d dims]|];
        [congruence| |]; rewrite andb_false_r; reflexivity.
Qed.

Lemma scalar_handling_spec_witness :
  scalar_handling 1 (ng_outputs running_sum_body)
  = [identity_cond; sum_out;
     Unsqueeze (Some [Some 1]) scalar_scan (Constant i64 [1] [0%Z]);
     vector_scan].
Proof.
  pose proof (scalar_handling_spec 1 (ng_outputs running_sum_body)) as [_ H].
  apply list_eq. intros [|[|[|[|i]]]].
  - apply (proj2 (H 0 identity_cond eq_refl)). left. lia.
  - apply (proj2 (H 1 sum_out eq_refl)). left. lia.
  - apply (proj1 (H 2 scalar_scan eq_refl)); [lia|reflexivity].
  - apply (proj2 (H 3 vector_scan eq_refl)). right. discriminate.
  - reflexivity.
Defined.

(** ** The condition-output rewrite (section 4.5) *)

Lemma rewritten_body_outputs_cons k cond_out rest :
  rewritten_body_outputs k (cond_out :: rest)
  = (if identity_pattern cond_out then true_constant else cond_out)
      :: imap (normalized k ∘ S) rest.
Proof.
  unfold rewritten_body_outputs. cbn [imap]. rewrite normalized_at_condition.
  destruct (identity_pattern cond_out); reflexivity.
Qed.

(** The rewrite where the pattern check returns.  When the body's
    condition output is a logical-OR whose second operand is a boolean
    constant with value false, the pass puts a fresh constant true in its
    place and records nothing.  When the check returns false, the body
    outputs stay as they are and the warning is recorded.  The loop
    construct's body function then has, at position 0, the constant or the
    original condition output accordingly. *)
Theorem condition_output_rewrite (cond_out : Output) (rest : list Output) (t : Trace) :
  (forall ps arg0 shape values,
      cond_out = LogicalOr ps arg0 (Constant boolean shape (0%Z :: values)) ->
      replace_termination_condition (cond_out :: rest) t
        = (Returned (Constant boolean [1] [1%Z] :: rest), t)) /\
  (identity_pattern cond_out = false -> or_with_empty_constant cond_out = false ->
   replace_termination_condition (cond_out :: rest) t
     = (Returned (cond_out :: rest), t ++ [Warn warning_text])) /\
  (forall inputs params outs l t',
      loop (mkNode inputs (mkSubgraph (cond_out :: rest) params)) t
        = (Returned (mkLowered outs (Some l)), t') ->
      exists f,
        body l = Some f /\
        results f !! 0
          = Some (if identity_pattern cond_out then Constant boolean [1] [1%Z] else cond_out) /\
        t' = t ++ body_reads
               ++ (if identity_pattern cond_out then [] else [Warn warning_text])
               ++ passed_checks).
Proof.
  split; [|split].
  - intros ps arg0 shape values ->. rewrite replace_termination_condition_run.
    reflexivity.
  - intros Hid Hor. rewrite replace_termination_condition_run, Hor, Hid. reflexivity.
  - intros inputs params outs l t' H. apply loop_built_inv in H.
    destruct H as (i0 & i1 & ds & c & r & _ & _ & Houts & _ & _ & _ & _ & -> & ->).
    cbn [body_attribute ng_outputs ng_parameters] in *.
    injection Houts as <- <-.
    eexists. split; [reflexivity|].
    cbn [results]. rewrite rewritten_body_outputs_cons. split; reflexivity.
Qed.

Lemma condition_output_rewrite_witness :
  replace_termination_condition (ng_outputs running_sum_body) []
    = (Returned (Constant boolean [1] [1%Z] :: [sum_out; scalar_scan; vector_scan]), []) /\
  replace_termination_condition [Param cond_in; sum_out] []
    = (Returned [Param cond_in; sum_out], [Warn warning_text]).
Proof.
  split.
  - apply (proj1 (condition_output_rewrite identity_cond
                    [sum_out; scalar_scan; vector_scan] [])
             (Some []) (Param cond_in) [] []).
    reflexivity.
  - apply (proj1 (proj2 (condition_output_rewrite (Param cond_in) [sum_out] [])));
      reflexivity.
Defined.

(** C5 fails on this input.  The condition output is a logical-OR whose
    second operand is a boolean constant of shape {0}: it does not match
    the pattern, and by its documentation (lines 50 and 51, "false
    otherwise") the check should answer false, so that the condition output
    stays in place and the warning is recorded.  Instead [.at(0)] on line 68
    throws: the check, the pass and the lowering leave with
    [std::out_of_range], and no warning is recorded. *)
Lemma empty_constant_breaks_rewrite :
  identity_pattern or_with_empty = false /\
  is_termination_condition_always_true or_with_empty []
    = (Thrown std_out_of_range, []) /\
  replace_termination_condition (ng_outputs or_with_empty_body) []
    = (Thrown std_out_of_range, []) /\
  loop or_with_empty_node []
    = (Thrown std_out_of_range, [GetBodyAttribute; GetNgOutputs; GetNgParameters]).
Proof. split; [|split; [|split]]; vm_compute; reflexivity. Qed.

(** ** The loop construct (section 4.6) *)

(** C1, as amended.  When the loop construct is built, the parameter list of
    its body function is the body's parameter at index 0 (the iteration
    number, by the comment at line 199) followed by the body's parameters
    from index 2 on; the parameter at index 1 is not part of it. *)
Theorem body_function_parameters
    (node : Node) (t : Trace) (outs : list Output) (l : LoopOp) (t' : Trace) :
  loop node t = (Returned (mkLowered outs (Some l)), t') ->
  exists first_param second_param carried f,
    ng_parameters (body_attribute node) = first_param :: second_param :: carried /\
    body l = Some f /\
    parameters f = first_param :: carried.
Proof.
  intros H. apply loop_built_inv in H.
  destruct H as (i0 & i1 & ds & c & r & _ & _ & _ & _ & Hin & _ & _ & -> & _).
  destruct (ng_parameters (body_attribute node)) as [|p0 [|p1 carried]];
    try (cbn in Hin; lia).
  exists p0, p1, carried. eexists. split; [reflexivity|]. split; reflexivity.
Qed.

Lemma body_function_parameters_witness :
  exists first_param second_param carried f,
    ng_parameters (body_attribute running_sum_node)
      = first_param :: second_param :: carried /\
    body (built_loop unbounded_trip_count true_constant [initial_sum]
                     (ng_parameters running_sum_body)
                     (rewritten_body_outputs 1 (ng_outputs running_sum_body)))
      = Some f /\
    parameters f = first_param :: carried.
Proof.
  eapply (body_function_parameters running_sum_node [] _ _ _).
  vm_compute. reflexivity.
Defined.

(** C1, as stated, fails: the body function of the running-sum operation
    has the parameters [iter_num; sum_in], not [cond_in; sum_in]. *)
Lemma condition_parameter_not_prepended :
  exists outs l t' f,
    loop running_sum_node [] = (Returned (mkLowered outs (Some l)), t') /\
    body l = Some f /\
    ng_parameters running_sum_body !! 1 = Some cond_in /\
    parameters f = [iter_num; sum_in] /\
    parameters f <> cond_in :: drop 2 (ng_parameters running_sum_body).
Proof.
  eexists _, _, _, _. split; [vm_compute; reflexivity|].
  split; [reflexivity|]. split; [reflexivity|]. split; [reflexivity|].
  discriminate.
Qed.

(** C7.  An operation with k carried dependencies whose body has 1 + k + m
    outputs and at least k + 2 parameters is lowered, in the general case,
    to a loop construct with k + m outputs, returned in that order.  Output
    i < k is the value of body output 1 + i after the last iteration
    (iteration -1); output k + j is the concatenation, with start 0, stride
    1, part size 1, end -1 and axis 0, of body output 1 + k + j as the
    normalizer left it. *)
Theorem loop_outputs
    (input0 input1 cond_out : Output) (deps rest : list Output)
    (params : list ParameterNode) (k m : nat) (t : Trace) :
  length deps = k ->
  length rest = k + m ->
  k + 2 <= length params ->
  general_case input1 = true ->
  or_with_empty_constant cond_out = false ->
  exists outs l t',
    loop (mkNode (input0 :: input1 :: deps) (mkSubgraph (cond_out :: rest) params)) t
      = (Returned (mkLowered outs (Some l)), t') /\
    length outs = k + m /\
    length (output_descriptions l) = k + m /\
    (forall i o, i < k -> rest !! i = Some o ->
       outs !! i = Some (LoopOutput i) /\
       output_descriptions l !! i = Some (BodyOutputDescription o (-1))) /\
    (forall j o, j < m -> rest !! (k + j) = Some o ->
       outs !! (k + j) = Some (LoopOutput (k + j)) /\
       output_descriptions l !! (k + j)
         = Some (ConcatOutputDescription
                   (if static_scalar o then make_Unsqueeze o (Constant i64 [1] [0%Z]) else o)
                   0 1 1 (-1) 0)).
Proof.
  intros Hk Hrest Hparams Hgen Hor.
  eexists _, _, _. split.
  { apply (loop_built input0 input1 deps (mkSubgraph (cond_out :: rest) params)
                        cond_out rest t Hgen eq_refl Hor);
      cbn [ng_parameters]; lia. }
  cbn [ng_outputs ng_parameters]. rewrite rewritten_body_outputs_cons.
  unfold built_loop. cbn [output_descriptions].
  rewrite Hk, Hrest. replace (k + m - k) with m by lia.
  rewrite Nat.add_1_r. cbn [drop].
  rewrite drop_0.
  set (rest' := imap (normalized k ∘ S) rest).
  assert (Hlen' : length rest' = k + m) by (subst rest'; rewrite length_imap; exact Hrest).
  assert (Hfinal : length (final_value_descriptions (take k rest')) = k).
  { unfold final_value_descriptions. rewrite length_map, length_take. lia. }
  split; [rewrite length_app, !length_map, !length_seq; reflexivity|].
  split.
  { rewrite length_app, Hfinal. unfold scan_descriptions.
    rewrite length_map, length_drop. lia. }
  split.
  - intros i o Hi Ho. split.
    + rewrite lookup_app_l by (rewrite length_map, length_seq; exact Hi).
      rewrite list_lookup_fmap, lookup_seq_lt by exact Hi. reflexivity.
    + rewrite lookup_app_l by (rewrite Hfinal; exact Hi).
      unfold final_value_descriptions. rewrite list_lookup_fmap.
      rewrite lookup_take_lt by exact Hi. subst rest'.
      rewrite list_lookup_imap, Ho. cbn.
      unfold normalized. rewrite bool_decide_eq_false_2 by lia. reflexivity.
  - intros j o Hj Ho. split.
    + rewrite lookup_app_r by (rewrite length_map, length_seq; lia).
      rewrite length_map, length_seq.
      replace (k + j - k) with j by lia.
      rewrite list_lookup_fmap, lookup_seq_lt by exact Hj. reflexivity.
    + rewrite lookup_app_r by (rewrite Hfinal; lia).
      rewrite Hfinal. replace (k + j - k) with j by lia.
      unfold scan_descriptions. rewrite list_lookup_fmap, lookup_drop. subst rest'.
      rewrite list_lookup_imap, Ho. cbn.
      unfold normalized, axis_0. rewrite bool_decide_eq_true_2 by lia. reflexivity.
Qed.

Lemma loop_outputs_witness :
  exists outs l t',
    loop running_sum_node [] = (Returned (mkLowered outs (Some l)), t') /\
    length outs = 1 + 2 /\
    length (output_descriptions l) = 1 + 2 /\
    (forall i o, i < 1 -> [sum_out; scalar_scan; vector_scan] !! i = Some o ->
       outs !! i = Some (LoopOutput i) /\
       output_descriptions l !! i = Some (BodyOutputDescription o (-1))) /\
    (forall j o, j < 2 -> [sum_out; scalar_scan; vector_scan] !! (1 + j) = Some o ->
       outs !! (1 + j) = Some (LoopOutput (1 + j)) /\
       output_descriptions l !! (1 + j)
         = Some (ConcatOutputDescription
                   (if static_scalar o then make_Unsqueeze o (Constant i64 [1] [0%Z]) else o)
                   0 1 1 (-1) 0)).
Proof.
  apply (loop_outputs NullNode NullNode identity_cond [initial_sum]
           [sum_out; scalar_scan; vector_scan] [iter_num; cond_in; sum_in] 1 2 []).
  - reflexivity.
  - reflexivity.
  - cbn. lia.
  - reflexivity.
  - reflexivity.
Defined.

(** * Further properties of the lowering *)

(** ** The pattern check (lines 52 to 74) *)

(** X1.  [is_termination_condition_always_true] answers true exactly on a
    logical-OR whose second operand is a boolean constant with a first
    element equal to false; it throws, with [std::out_of_range], exactly on
    a logical-OR whose second operand is a boolean constant without
    elements; it logs nothing.  The first operand, and a false constant of
    another element type, play no part. *)
Theorem always_true_iff (cond_out : Output) (t : Trace) :
  (is_termination_condition_always_true cond_out t = (Returned true, t) <->
   exists ps arg0 shape values,
     cond_out = LogicalOr ps arg0 (Constant boolean shape (0%Z :: values))) /\
  (is_termination_condition_always_true cond_out t = (Thrown std_out_of_range, t) <->
   exists ps arg0 shape,
     cond_out = LogicalOr ps arg0 (Constant boolean shape [])) /\
  (is_termination_condition_always_true cond_out t).2 = t /\
  (forall e, (is_termination_condition_always_true cond_out t).1 = Thrown e ->
             e = std_out_of_range).
Proof.
  rewrite is_termination_condition_always_true_run.
  split; [|split; [|split]].
  - split.
    + destruct cond_out as [| | |ps a second| | |]; try discriminate.
      destruct second as [|et shape values| | | | |]; try discriminate.
      destruct et; try discriminate.
      destruct values as [|v values]; [discriminate|].
      cbn. destruct (Z.eqb_spec v 0) as [->|]; [|discriminate].
      intros _. exists ps, a, shape, values. reflexivity.
    + intros (ps & a & shape & values & ->). reflexivity.
  - split.
    + destruct cond_out as [| | |ps a second| | |]; try discriminate.
      destruct second as [|et shape values| | | | |]; try discriminate.
      destruct et; try discriminate.
      destruct values as [|v values]; [|discriminate].
      intros _. exists ps, a, shape. reflexivity.
    + intros (ps & a & shape & ->). reflexivity.
  - destruct (or_with_empty_constant cond_out); reflexivity.
  - intros e. destruct (or_with_empty_constant cond_out); cbn; congruence.
Qed.

(** ** The builder (lines 189 to 230) *)

Lemma wire_dependencies_short ins outs deps : forall w t,
  deps <> [] ->
  length ins < body_inputs_it w + length deps
  \/ length outs < body_outputs_it w + length deps ->
  wire_dependencies ins outs deps w t = (Thrown undefined_behaviour, t).
Proof.
  induction deps as [|dep deps IH]; intros w t Hne Hshort; [congruence|].
  cbn [wire_dependencies length] in *.
  destruct (ins !! body_inputs_it w) as [p|] eqn:Hp; cycle 1.
  { apply run_bind_thrown. unfold wire_dependency.
    apply run_bind_thrown, subscript_None, Hp. }
  destruct (outs !! body_outputs_it w) as [o|] eqn:Ho; cycle 1.
  { apply run_bind_thrown. unfold wire_dependency.
    rewrite (run_bind_returned _ _ t p t) by (apply subscript_Some, Hp).
    apply run_bind_thrown, subscript_None, Ho. }
  erewrite run_bind_returned; [|apply (wire_dependency_run _ _ _ _ _ p o); assumption].
  apply lookup_lt_Some in Hp, Ho.
  apply IH; cbn [body_inputs_it body_outputs_it].
  - intros ->. cbn [length] in Hshort. lia.
  - lia.
Qed.

(** X2.  The two [CHECK_VALID_NODE] conditions are exactly what the builder
    needs: with at least k + 2 body parameters and k + 1 body outputs it
    returns the loop construct and k + (outputs - k - 1) outputs, and with
    fewer of either it runs an unchecked access or an iterator past the
    end. *)
Theorem build_loop_needs_signature
    (tc c : Output) (deps : list Output)
    (ins : list ParameterNode) (outs : list Output) (t : Trace) :
  let k := length deps in
  (k + 2 <= length ins /\ k + 1 <= length outs ->
   build_loop tc c deps ins outs t
     = (Returned (built_loop tc c deps ins outs,
                  map LoopOutput (seq 0 (k + (length outs - (k + 1))))),
        t)) /\
  (length ins < k + 2 \/ length outs < k + 1 ->
   build_loop tc c deps ins outs t = (Thrown undefined_behaviour, t)).
Proof.
  cbn zeta. split.
  - intros [Hin Hout]. rewrite build_loop_run by assumption.
    rewrite seq_app, map_app. reflexivity.
  - intros Hshort. unfold build_loop.
    destruct (decide (2 <= length ins)) as [H2|H2]; cycle 1.
    { apply run_bind_thrown, range_from_gt. lia. }
    rewrite (run_bind_returned _ _ t (drop 2 ins) t) by (apply range_from_le; lia).
    destruct ins as [|p0 ins]; [cbn in H2; lia|].
    rewrite (run_bind_returned _ _ t p0 t) by reflexivity.
    destruct deps as [|dep deps].
    + cbn [length] in *. cbn [wire_dependencies].
      rewrite (run_bind_returned _ _ t _ t) by reflexivity.
      cbn [body_outputs_it]. apply run_bind_thrown, range_from_gt. lia.
    + apply run_bind_thrown, wire_dependencies_short; [discriminate|].
      cbn [body_inputs_it body_outputs_it length] in *. lia.
Qed.

Lemma build_loop_needs_signature_witness :
  build_loop unbounded_trip_count true_constant [initial_sum]
             [iter_num; cond_in; sum_in] [identity_cond; sum_out; vector_scan] []
    = (Returned (built_loop unbounded_trip_count true_constant [initial_sum]
                            [iter_num; cond_in; sum_in]
                            [identity_cond; sum_out; vector_scan],
                 [LoopOutput 0; LoopOutput 1]), []) /\
  build_loop unbounded_trip_count true_constant [initial_sum]
             [iter_num; cond_in] [identity_cond; sum_out] []
    = (Thrown undefined_behaviour, []).
Proof.
  split.
  - apply (proj1 (build_loop_needs_signature unbounded_trip_count true_constant
                    [initial_sum] [iter_num; cond_in; sum_in]
                    [identity_cond; sum_out; vector_scan] [])).
    cbn. lia.
  - apply (proj2 (build_loop_needs_signature unbounded_trip_count true_constant
                    [initial_sum] [iter_num; cond_in] [identity_cond; sum_out] [])).
    cbn. lia.
Defined.

(** ** When the lowering returns, and how it fails *)

Lemma loop_general_outcome node input0 input1 deps t :
  ng_inputs node = input0 :: input1 :: deps ->
  general_case input1 = true ->
  loop node t = general_outcome input0 deps (body_attribute node) (t ++ body_reads).
Proof.
  intros Hin Hgen. rewrite loop_outcome_correct. unfold loop_outcome, general_case in *.
  rewrite Hin. destruct (classify_condition input1); first [discriminate | reflexivity].
Qed.

Lemma general_outcome_returns_iff input0 deps b t :
  (exists r t', general_outcome input0 deps b t = (Returned r, t')) <->
  exists cond_out rest,
    ng_outputs b = cond_out :: rest /\
    or_with_empty_constant cond_out = false /\
    length deps + 2 <= length (ng_parameters b) /\
    length deps <= length rest.
Proof.
  unfold general_outcome.
  destruct (ng_outputs b) as [|cond_out rest].
  { split; [intros (r & t' & H); discriminate|intros (c & r & H & _); discriminate]. }
  destruct (or_with_empty_constant cond_out) eqn:Hor.
  { split; [intros (r & t' & H); discriminate|].
    intros (c & r & H & Hc & _). injection H as <- <-. congruence. }
  destruct (decide (length deps + 2 <= length (ng_parameters b))) as [Hin|Hin].
  - rewrite (bool_decide_eq_true_2 _ Hin).
    destruct (decide (length deps + 1 <= length (cond_out :: rest))) as [Hout|Hout].
    + rewrite (bool_decide_eq_true_2 _ Hout). split; [|eauto].
      intros _. exists cond_out, rest. cbn [length] in Hout.
      repeat split; first [assumption | lia].
    + rewrite (bool_decide_eq_false_2 _ Hout).
      split; [intros (r & t' & H); discriminate|].
      intros (c & r & H & _ & _ & Hr). injection H as <- <-. cbn [length] in Hout. lia.
  - rewrite (bool_decide_eq_false_2 _ Hin).
    split; [intros (r & t' & H); discriminate|].
    intros (c & r & H & _ & Hp & _). lia.
Qed.

(** X3.  The lowering returns a result exactly when the node has at least
    two inputs and either input 1 is a constant whose first element is
    false, or input 1 is null, a constant whose first element is true, or
    not a constant, and the body has a condition output on which the
    pattern check does not throw, at least k + 2 parameters and at least
    k + 1 outputs. *)
Theorem loop_returns_iff (node : Node) (t : Trace) :
  (exists r t', loop node t = (Returned r, t')) <->
  exists input0 input1 deps,
    ng_inputs node = input0 :: input1 :: deps /\
    (classify_condition input1 = ConstantFalse \/
     general_case input1 = true /\
     exists cond_out rest,
       ng_outputs (body_attribute node) = cond_out :: rest /\
       or_with_empty_constant cond_out = false /\
       length deps + 2 <= length (ng_parameters (body_attribute node)) /\
       length deps <= length rest).
Proof.
  split.
  - intros (r & t' & H). rewrite loop_outcome_correct in H. unfold loop_outcome in H.
    destruct (ng_inputs node) as [|input0 [|input1 deps]]; try discriminate.
    exists input0, input1, deps. split; [reflexivity|].
    unfold general_case.
    destruct (classify_condition input1); try discriminate;
      first [ left; reflexivity
            | right; split; [reflexivity|];
              apply (general_outcome_returns_iff input0 deps _ (t ++ body_reads)); eauto ].
  - intros (input0 & input1 & deps & Hin & [Hfalse | [Hgen Hbody]]).
    + rewrite loop_outcome_correct. unfold loop_outcome. rewrite Hin, Hfalse. eauto.
    + rewrite (loop_general_outcome node input0 input1 deps t Hin Hgen).
      apply general_outcome_returns_iff, Hbody.
Qed.

(** X4.  The lowering runs into undefined behaviour exactly when the node
    has fewer than two inputs (line 81 moves an iterator past the end) or
    input 1 is a constant without elements (line 112 reads element 0
    unchecked).  In particular no body, however short, leads there: the
    unchecked accesses of lines 161 and 189 to 218 are all covered. *)
Theorem loop_undefined_behaviour_iff (node : Node) (t : Trace) :
  (loop node t).1 = Thrown undefined_behaviour <->
  length (ng_inputs node) < 2 \/
  exists et shape, ng_inputs node !! 1 = Some (Constant et shape []).
Proof.
  rewrite loop_outcome_correct. unfold loop_outcome.
  destruct (ng_inputs node) as [|input0 [|input1 deps]].
  - split; [intros _; left; cbn; lia|reflexivity].
  - split; [intros _; left; cbn; lia|reflexivity].
  - cbn [lookup list_lookup length].
    assert (Hgen : forall x, x = general_outcome input0 deps (body_attribute node)
                                   (t ++ body_reads) ->
                             x.1 <> Thrown undefined_behaviour).
    { intros x ->. unfold general_outcome.
      destruct (ng_outputs _) as [|c r]; [discriminate|].
      destruct (or_with_empty_constant c); [discriminate|].
      destruct (bool_decide _); [|discriminate].
      destruct (bool_decide _); discriminate. }
    destruct input1 as [|et shape [|v values]| | | | |]; cbn [classify_condition];
      try (split;
           [ intros H; exfalso; exact (Hgen _ eq_refl H)
           | intros [H | (et' & shape' & H)]; [cbn in H; lia | discriminate] ]).
    + split; [intros _; right; eauto|reflexivity].
    + destruct (v =? 0)%Z.
      * split; [discriminate|].
        intros [H | (et' & shape' & H)]; [cbn in H; lia | discriminate].
      * split;
          [ intros H; exfalso; exact (Hgen _ eq_refl H)
          | intros [H | (et' & shape' & H)]; [cbn in H; lia | discriminate] ].
Qed.

(** X5.  The lowering leaves with [std::out_of_range] exactly in the general
    case and on a body that has no output at all, or whose condition output
    is a logical-OR with a boolean constant without elements as second
    operand.  The checked [ng_inputs.at(0)] and [ng_inputs.at(1)] never
    throw. *)
Theorem loop_out_of_range_iff (node : Node) (t : Trace) :
  (loop node t).1 = Thrown std_out_of_range <->
  exists input0 input1 deps,
    ng_inputs node = input0 :: input1 :: deps /\
    general_case input1 = true /\
    (ng_outputs (body_attribute node) = [] \/
     exists ps arg0 shape rest,
       ng_outputs (body_attribute node)
         = LogicalOr ps arg0 (Constant boolean shape []) :: rest).
Proof.
  assert (Hg : forall input0 deps,
             (general_outcome input0 deps (body_attribute node) (t ++ body_reads)).1
               = Thrown std_out_of_range <->
             (ng_outputs (body_attribute node) = [] \/
              exists ps arg0 shape rest,
                ng_outputs (body_attribute node)
                  = LogicalOr ps arg0 (Constant boolean shape []) :: rest)).
  { intros input0 deps. unfold general_outcome.
    destruct (ng_outputs (body_attribute node)) as [|c r].
    { split; [intros _; left; reflexivity|reflexivity]. }
    destruct (or_with_empty_constant c) eqn:Hor.
    - split; [|reflexivity]. intros _. right.
      destruct c as [| | |ps a second| | |]; try discriminate.
      destruct second as [|et shape values| | | | |]; try discriminate.
      destruct et; try discriminate.
      destruct values; [|discriminate]. eauto.
    - split.
      + destruct (bool_decide _); [|discriminate].
        destruct (bool_decide _); discriminate.
      + intros [H | (ps & a & shape & rest & H)]; [discriminate|].
        injection H as -> _. discriminate. }
  split.
  - intros H. rewrite loop_outcome_correct in H. unfold loop_outcome in H.
    destruct (ng_inputs node) as [|input0 [|input1 deps]]; try discriminate.
    exists input0, input1, deps. split; [reflexivity|]. unfold general_case.
    destruct (classify_condition input1); try discriminate;
      (split; [reflexivity|apply (Hg input0 deps), H]).
  - intros (input0 & input1 & deps & Hin & Hgen & Hbody).
    rewrite (loop_general_outcome node input0 input1 deps t Hin Hgen).
    apply Hg, Hbody.
Qed.

(** X6.  In the general case, on a body whose pattern check does not throw,
    the parameter count is checked first: with fewer than k + 2 parameters
    the lowering fails with the validation failure that carries that count
    and k + 2, and the output count is not looked at.  With enough
    parameters and fewer than k + 1 outputs it fails with the failure that
    carries the output count and k + 1.  Either way the body was read and
    the warning about the condition output, if due, was already logged. *)
Theorem body_signature_failures
    (input0 input1 cond_out : Output) (deps rest : list Output)
    (params : list ParameterNode) (t : Trace) :
  general_case input1 = true ->
  or_with_empty_constant cond_out = false ->
  let node := mkNode (input0 :: input1 :: deps) (mkSubgraph (cond_out :: rest) params) in
  let k := length deps in
  let seen := t ++ [GetBodyAttribute; GetNgOutputs; GetNgParameters]
                ++ (if identity_pattern cond_out then [] else [Warn warning_text]) in
  (length params < k + 2 ->
   loop node t
     = (Thrown (node_validation_failure body_graph_inputs (length params) (k + 2)),
        seen ++ [CheckValidNode body_graph_inputs false])) /\
  (k + 2 <= length params -> length rest < k ->
   loop node t
     = (Thrown (node_validation_failure body_graph_outputs (S (length rest)) (k + 1)),
        seen ++ [CheckValidNode body_graph_inputs true;
                 CheckValidNode body_graph_outputs false])).
Proof.
  intros Hgen Hor. cbn zeta.
  rewrite (loop_general_outcome
             (mkNode (input0 :: input1 :: deps) (mkSubgraph (cond_out :: rest) params))
             input0 input1 deps t eq_refl Hgen).
  unfold general_outcome. cbn [body_attribute ng_outputs ng_parameters length].
  rewrite Hor. unfold analyzer_events, body_reads. rewrite <- !app_assoc. split.
  - intros Hin. rewrite bool_decide_eq_false_2 by lia. reflexivity.
  - intros Hin Hout. rewrite (bool_decide_eq_true_2 _ Hin).
    rewrite bool_decide_eq_false_2 by lia. reflexivity.
Qed.

Lemma body_signature_failures_witness :
  loop short_parameters_node []
    = (Thrown (node_validation_failure body_graph_inputs 2 3),
       [GetBodyAttribute; GetNgOutputs; GetNgParameters; Warn warning_text;
        CheckValidNode body_graph_inputs false]) /\
  loop short_outputs_node []
    = (Thrown (node_validation_failure body_graph_outputs 1 2),
       [GetBodyAttribute; GetNgOutputs; GetNgParameters;
        CheckValidNode body_graph_inputs true;
        CheckValidNode body_graph_outputs false]).
Proof.
  split.
  - apply (proj1 (body_signature_failures NullNode NullNode (Param cond_in)
                    [initial_sum] [sum_out] [iter_num; cond_in] []
                    eq_refl eq_refl)).
    cbn. lia.
  - apply (proj2 (body_signature_failures NullNode NullNode identity_cond
                    [initial_sum] [] [iter_num; cond_in; sum_in] []
                    eq_refl eq_refl)); cbn; lia.
Defined.

(** X7.  The warning is logged exactly when the general case is reached
    with a body whose condition output passes the pattern check without
    matching the pattern.  It does not wait for the signature checks: a run
    that then fails validation has logged it all the same. *)
Theorem warning_iff (node : Node) :
  Warn warning_text ∈ (loop node []).2 <->
  exists input0 input1 deps cond_out rest,
    ng_inputs node = input0 :: input1 :: deps /\
    general_case input1 = true /\
    ng_outputs (body_attribute node) = cond_out :: rest /\
    or_with_empty_constant cond_out = false /\
    identity_pattern cond_out = false.
Proof.
  assert (Hreads : Warn warning_text ∉ body_reads).
  { unfold body_reads. rewrite !elem_of_cons, elem_of_nil. intuition discriminate. }
  assert (Hg : forall input0 deps,
             Warn warning_text
               ∈ (general_outcome input0 deps (body_attribute node) ([] ++ body_reads)).2 <->
             exists cond_out rest,
               ng_outputs (body_attribute node) = cond_out :: rest /\
               or_with_empty_constant cond_out = false /\
               identity_pattern cond_out = false).
  { intros input0 deps. unfold general_outcome. cbn [app].
    destruct (ng_outputs (body_attribute node)) as [|c r].
    { split; [intros H; contradiction|intros (? & ? & H & _); discriminate]. }
    destruct (or_with_empty_constant c) eqn:Hor.
    { split; [intros H; contradiction|].
      intros (? & ? & H & Hc & _). injection H as <- <-. congruence. }
    unfold analyzer_events, passed_checks.
    destruct (identity_pattern c) eqn:Hid.
    - split.
      + intros H. exfalso. apply Hreads.
        destruct (bool_decide _); [destruct (bool_decide _)|];
          cbn [snd] in H; rewrite !elem_of_app, !elem_of_cons, !elem_of_nil in H;
          intuition discriminate.
      + intros (? & ? & H & _ & Hc). injection H as <- <-. congruence.
    - split; [intros _; eauto|]. intros _.
      destruct (bool_decide _); [destruct (bool_decide _)|];
        cbn [snd]; rewrite !elem_of_app, !elem_of_cons; tauto. }
  rewrite loop_outcome_correct. unfold loop_outcome.
  destruct (ng_inputs node) as [|input0 [|input1 deps]].
  - split; [intros H; cbn in H; apply elem_of_nil in H; contradiction|].
    intros (? & ? & ? & ? & ? & H & _). discriminate.
  - split; [intros H; cbn in H; apply elem_of_nil in H; contradiction|].
    intros (? & ? & ? & ? & ? & H & _). discriminate.
  - unfold general_case.
    destruct (classify_condition input1) eqn:Hclass;
      try (rewrite Hg; split;
           [ intros (c & r & H); exists input0, input1, deps, c, r;
             unfold general_case; rewrite Hclass; tauto
           | intros (i0 & i1 & ds & c & r & Hin & _ & H); eauto ]);
      (split;
       [ intros H; cbn [snd app] in H; contradiction
       | intros (i0 & i1 & ds & c & r & Hin & Hgen & _);
         injection Hin as <- <- <-; unfold general_case in Hgen;
         rewrite Hclass in Hgen; discriminate ]).
Qed.

(** ** The loop construct that is built *)

Lemma rewritten_carried_output k cond_out rest i :
  i < k ->
  rewritten_body_outputs k (cond_out :: rest) !! S i = rest !! i.
Proof.
  intros Hi. rewrite rewritten_body_outputs_cons.
  change (imap (normalized k ∘ S) rest !! i = rest !! i).
  rewrite list_lookup_imap. destruct (rest !! i) as [o|]; [|reflexivity].
  cbn. unfold normalized. rewrite bool_decide_eq_false_2 by lia. reflexivity.
Qed.

(** X8.  Whenever a loop construct is built it has one merged input per
    carried dependency, in order: the i-th binds body parameter 2 + i to the
    node's input 2 + i as initial value and to body output 1 + i, as the
    body graph has it, as the value of the following iterations.  Body
    parameters 0 and 1 are never bound, and neither rewrite of the body
    outputs reaches a carried output. *)
Theorem merged_inputs_wiring
    (node : Node) (t : Trace) (outs : list Output) (l : LoopOp) (t' : Trace) :
  loop node t = (Returned (mkLowered outs (Some l)), t') ->
  length (input_descriptions l) = length (ng_inputs node) - 2 /\
  forall i dep,
    ng_inputs node !! (2 + i) = Some dep ->
    exists p o,
      ng_parameters (body_attribute node) !! (2 + i) = Some p /\
      ng_outputs (body_attribute node) !! (1 + i) = Some o /\
      input_descriptions l !! i = Some (mkMergedInput p dep o).
Proof.
  intros H. apply loop_built_inv in H.
  destruct H as (i0 & i1 & deps & c & r & Hin & _ & Houts & _ & Hp & Ho & _ & -> & _).
  rewrite Hin, Houts in *. cbn [length] in *.
  unfold built_loop. cbn [input_descriptions]. unfold merged_inputs.
  set (ins := ng_parameters (body_attribute node)) in *.
  split.
  - rewrite length_zip_with, length_zip_with, !length_take, !length_drop.
    rewrite rewritten_body_outputs_cons. cbn [length]. rewrite length_imap. lia.
  - intros i dep Hdep. change (deps !! i = Some dep) in Hdep.
    assert (Hi : i < length deps) by (eapply lookup_lt_Some, Hdep).
    destruct (lookup_lt_is_Some_2 ins (2 + i)) as [p Hpi]; [lia|].
    destruct (lookup_lt_is_Some_2 r i) as [o Hoi]; [lia|].
    exists p, o. split; [exact Hpi|]. split; [exact Hoi|].
    rewrite lookup_zip_with, lookup_take_lt, lookup_drop, Hpi by exact Hi.
    cbn [mbind option_bind].
    rewrite lookup_zip_with, Hdep. cbn [mbind option_bind].
    rewrite lookup_take_lt, lookup_drop by exact Hi.
    replace (1 + i) with (S i) by lia.
    rewrite rewritten_carried_output, Hoi by exact Hi. reflexivity.
Qed.

Lemma merged_inputs_wiring_witness :
  exists outs l t',
    loop running_sum_node [] = (Returned (mkLowered outs (Some l)), t') /\
    input_descriptions l = [mkMergedInput sum_in initial_sum sum_out].
Proof.
  eexists _, _, _. split; [vm_compute; reflexivity|].
  pose proof (merged_inputs_wiring running_sum_node [] _ _ _ eq_refl) as [Hlen Hget].
  destruct (Hget 0 initial_sum eq_refl) as (p & o & Hp & Ho & Hd).
  injection Hp as <-. injection Ho as <-.
  apply list_eq. intros [|i]; [exact Hd|reflexivity].
Defined.

(** X9.  Whenever a loop construct is built, the returned list names every
    output of the construct once, in the order of creation, and there is one
    for each body output but the condition output; the body function keeps
    one result per body output; the special body ports are (0, 0); and the
    events are the three body reads, the warning if the pattern did not
    match, and the two checks, both passed. *)
Theorem built_loop_shape
    (node : Node) (t : Trace) (outs : list Output) (l : LoopOp) (t' : Trace) :
  loop node t = (Returned (mkLowered outs (Some l)), t') ->
  outs = map LoopOutput (seq 0 (length (output_descriptions l))) /\
  S (length outs) = length (ng_outputs (body_attribute node)) /\
  special_body_ports l = Some (mkSpecialBodyPorts 0 0) /\
  (exists f, body l = Some f /\
             length (results f) = length (ng_outputs (body_attribute node))) /\
  exists warnings,
    (warnings = [] \/ warnings = [Warn warning_text]) /\
    t' = t ++ [GetBodyAttribute; GetNgOutputs; GetNgParameters] ++ warnings
           ++ [CheckValidNode body_graph_inputs true;
               CheckValidNode body_graph_outputs true].
Proof.
  intros H. apply loop_built_inv in H.
  destruct H as (i0 & i1 & deps & c & r & _ & _ & Houts & _ & _ & Ho & -> & -> & ->).
  rewrite Houts in *. cbn [length] in Ho.
  assert (Hlen : length (rewritten_body_outputs (length deps) (c :: r)) = S (length r)).
  { rewrite rewritten_body_outputs_cons. cbn [length]. rewrite length_imap. reflexivity. }
  unfold built_loop.
  cbn [output_descriptions special_body_ports body results length].
  unfold final_value_descriptions, scan_descriptions.
  rewrite length_app, !length_map, length_take, !length_drop, Hlen.
  split; [|split; [|split; [|split]]].
  - rewrite <- map_app, <- seq_app. f_equal. f_equal. lia.
  - rewrite length_app, !length_map, !length_seq. lia.
  - reflexivity.
  - eexists. split; [reflexivity|]. cbn [results]. exact Hlen.
  - exists (analyzer_events c). split; [|reflexivity].
    unfold analyzer_events. destruct (identity_pattern c); [left|right]; reflexivity.
Qed.

Lemma built_loop_shape_witness :
  exists outs l t',
    loop running_sum_node [] = (Returned (mkLowered outs (Some l)), t') /\
    outs = map LoopOutput (seq 0 (length (output_descriptions l))) /\
    S (length outs) = length (ng_outputs running_sum_body).
Proof.
  eexists _, _, _. split; [vm_compute; reflexivity|].
  pose proof (built_loop_shape running_sum_node [] _ _ _ eq_refl) as (H1 & H2 & _).
  split; [exact H1|exact H2].
Defined.
